(** * Image search client and its similarity index

    A shallow embedding of the presentation-layer client
    ([src/app/page.tsx] and the second copy of the page kept in
    [src/unnamed/part_000]) and of the vector index that backs it.

    - [Js]: the JavaScript values and built-ins the client relies on
      (UTF-16 strings, [encodeURIComponent], template literals over
      numbers, [fetch], [Response], [FormData]), with a small state and
      exception monad for code that awaits and throws.
    - [ReactQuery]: the part of the query cache the page uses.
    - [Page] and [Part000]: the two source files, definition by definition.
    - [Engine]: the vector index of the specification (section 4.1), over
      binary64 floating-point numbers; its code is not part of the
      sources, so it is modelled from the text.

    Theorems follow the definitions. *)

From Stdlib Require Import Floats.
From Stdlib Require Import ZArith NArith QArith List Ascii String DecimalString.
From Stdlib Require DecimalPos DecimalZ.
From Stdlib Require Import Lia.
From stdpp Require Import base option strings list gmap sorting.
Import ListNotations.

(** ** JavaScript values and built-ins *)

Module Js.

(** A JavaScript string is a sequence of UTF-16 code units. *)
Definition jsstring := list N.

(** An ASCII literal of the source, as code units. *)
Definition js (s : string) : jsstring :=
  map N_of_ascii (list_ascii_of_string s).

(** [!!s] on a string: the empty string is the only falsy one. *)
Definition truthy (s : jsstring) : bool :=
  match s with
  | [] => false
  | _ :: _ => true
  end.

(** [a || b] on strings. *)
Definition or_else (a b : jsstring) : jsstring :=
  if truthy a then a else b.

(** The numbers the client puts into URLs are image identifiers and
    [top_k], integers on the wire.  JavaScript prints an integer that a
    number holds exactly, one of size up to 2^53, in decimal, digit for
    digit, with a leading minus sign when negative; that is what
    [Number_toString] is.  Larger numbers print the shortest digits that
    read back as them (2^60 as 1152921504606847000, 10^21 as 1e+21) and
    are outside this definition: [exact_integer] is the bound, which the
    statements about the digits of an id carry. *)
Definition number := Z.

Definition Number_toString (n : number) : jsstring :=
  js (NilZero.string_of_int (Z.to_int n)).
Arguments Number_toString n%_Z.

Inductive ErrorKind := Error | TypeError | URIError | SyntaxError.

Record JsError := mkError { kind : ErrorKind; message : jsstring }.

(** How an evaluation ends: with a value, or with a thrown error (a
    rejected promise, for asynchronous code). *)
Inductive Completion (A : Type) :=
| Normal (a : A)
| Throw (e : JsError).
Arguments Normal {A} a.
Arguments Throw {A} e.

(** *** encodeURIComponent *)

Local Open Scope N_scope.

(** Letters, digits and the marks [- _ . ! ~ * ' ( )] are left as they are. *)
Definition is_unescaped (c : N) : bool :=
  ((65 <=? c) && (c <=? 90)) || ((97 <=? c) && (c <=? 122))
  || ((48 <=? c) && (c <=? 57))
  || existsb (N.eqb c) [45; 95; 46; 33; 126; 42; 39; 40; 41].

Definition is_high_surrogate (c : N) : bool := (0xD800 <=? c) && (c <=? 0xDBFF).
Definition is_low_surrogate (c : N) : bool := (0xDC00 <=? c) && (c <=? 0xDFFF).

(** The code point of a surrogate pair. *)
Definition pair_code_point (hi lo : N) : N :=
  0x10000 + N.shiftl (hi - 0xD800) 10 + (lo - 0xDC00).

(** The UTF-8 octets of a code point. *)
Definition utf8 (cp : N) : list N :=
  if cp <? 0x80 then [cp]
  else if cp <? 0x800 then
    [N.lor 0xC0 (N.shiftr cp 6); N.lor 0x80 (N.land cp 0x3F)]
  else if cp <? 0x10000 then
    [N.lor 0xE0 (N.shiftr cp 12);
     N.lor 0x80 (N.land (N.shiftr cp 6) 0x3F);
     N.lor 0x80 (N.land cp 0x3F)]
  else
    [N.lor 0xF0 (N.shiftr cp 18);
     N.lor 0x80 (N.land (N.shiftr cp 12) 0x3F);
     N.lor 0x80 (N.land (N.shiftr cp 6) 0x3F);
     N.lor 0x80 (N.land cp 0x3F)].

Definition hex_digit (n : N) : N :=
  nth (N.to_nat n) (js "0123456789ABCDEF") 48.

(** [%XX], two upper-case hexadecimal digits. *)
Definition percent (octet : N) : jsstring :=
  [37; hex_digit (octet / 16 mod 16); hex_digit (octet mod 16)].

Definition percent_all (octets : list N) : jsstring :=
  flat_map percent octets.

(** [None] stands for the URIError thrown at a surrogate that has no
    partner. *)
Fixpoint encode (s : jsstring) : option jsstring :=
  match s with
  | [] => Some []
  | c :: rest =>
    if is_unescaped c then
      match encode rest with
      | Some r => Some (c :: r)
      | None => None
      end
    else if is_high_surrogate c then
      match rest with
      | d :: rest' =>
        if is_low_surrogate d then
          match encode rest' with
          | Some r => Some (percent_all (utf8 (pair_code_point c d)) ++ r)
          | None => None
          end
        else None
      | [] => None
      end
    else if is_low_surrogate c then None
    else
      match encode rest with
      | Some r => Some (percent_all (utf8 c) ++ r)
      | None => None
      end
  end.

Definition encodeURIComponent (s : jsstring) : Completion jsstring :=
  match encode s with
  | Some r => Normal r
  | None => Throw (mkError URIError (js "URI malformed"))
  end.

Local Close Scope N_scope.

(** *** Requests, responses and the network *)

Definition Blob := list Byte.byte.

Record File := { file_name : jsstring; file_bytes : Blob }.

Inductive FormValue :=
| FormFile (f : File)
| FormString (s : jsstring).

(** [FormData]: the entries in the order they were appended. *)
Definition FormData := list (jsstring * FormValue).

Definition FormData_append (name : jsstring) (v : FormValue) (fd : FormData) : FormData :=
  fd ++ [(name, v)].

(** [FormData.get]: the first value under the name. *)
Fixpoint FormData_get (name : jsstring) (fd : FormData) : option FormValue :=
  match fd with
  | [] => None
  | (n, v) :: rest => if decide (n = name) then Some v else FormData_get name rest
  end.

Inductive Method := GET | POST.

(** What [fetch(url, init)] sends; without [init] the method is GET and
    there is no body.  A [FormData] body goes out as a multipart form. *)
Record Request := { url : jsstring; method : Method; body : option FormData }.

#[warnings="-register-all"]
Inductive JSON :=
| JNull
| JBool (b : bool)
| JNumber (n : Q)
| JString (s : jsstring)
| JArray (items : list JSON)
| JObject (fields : list (jsstring * JSON)).

(** A [Response], by what its members give: [ok], and the body read with
    [text()], [json()] (which rejects on a body that is not JSON) or
    [blob()]. *)
Record Response := {
  ok : bool;
  text : jsstring;
  json : Completion JSON;
  blob : Blob
}.

(** The server and the wire: the outcome of a request, given the requests
    made before it.  [Throw] is a fetch that rejects. *)
Definition Network := list Request -> Request -> Completion Response.

(** *** State and exceptions *)

Definition M (S A : Type) := S -> Completion A * S.

Definition ret {S A} (a : A) : M S A := fun s => (Normal a, s).

Definition throw {S A} (e : JsError) : M S A := fun s => (Throw e, s).

Definition bind {S A B} (m : M S A) (k : A -> M S B) : M S B :=
  fun s =>
    match m s with
    | (Normal a, s') => k a s'
    | (Throw e, s') => (Throw e, s')
    end.

(** [try { m } catch (e) { handler(e) }]. *)
Definition try_catch {S A} (m : M S A) (handler : JsError -> M S A) : M S A :=
  fun s =>
    match m s with
    | (Normal a, s') => (Normal a, s')
    | (Throw e, s') => handler e s'
    end.

Definition get {S} : M S S := fun s => (Normal s, s).

Definition modify {S} (f : S -> S) : M S unit := fun s => (Normal tt, f s).

Definition lift_completion {S A} (c : Completion A) : M S A := fun s => (c, s).

(** Code that only talks to the network: its state is the log of the
    requests sent so far, oldest first. *)
Definition Async (A : Type) := M (list Request) A.

Definition fetch (net : Network) (r : Request) : Async Response :=
  fun log => (net log r, log ++ [r]).

End Js.

Export Js.

#[global] Instance M_ret {S} : MRet (M S) := fun A a => ret a.
#[global] Instance M_bind {S} : MBind (M S) := fun A B k m => bind m k.

(** ** The interfaces both files declare *)

Module Types.

(** [interface Image { id: number; filename: string; description?: string }].
    A JSON number is a finite double, hence a rational. *)
Record Image := {
  id : Q;
  filename : jsstring;
  description : option jsstring
}.

(** [interface SearchResult extends Image { similarity: number }]. *)
Record SearchResult := {
  image : Image;
  similarity : Q
}.

(** The JSON object that is a value of type [Image]: an optional member
    that is not set is not there. *)
Definition Image_fields (i : Image) : list (jsstring * JSON) :=
  [(js "id", JNumber (id i)); (js "filename", JString (filename i))]
  ++ match description i with
     | Some d => [(js "description", JString d)]
     | None => []
     end.

Definition Image_to_JSON (i : Image) : JSON := JObject (Image_fields i).

Definition SearchResult_to_JSON (r : SearchResult) : JSON :=
  JObject (Image_fields (image r) ++ [(js "similarity", JNumber (similarity r))]).

(** The argument of [searchImages]: [{ query: string; topK?: number }]. *)
Record SearchArgs := { query : jsstring; topK : option number }.

(** The argument of [addImage]: [{ file: File; description: string }]. *)
Record AddArgs := { file : File; add_description : jsstring }.

End Types.

Export Types.

(** ** The component's state and the libraries it calls *)

Module ReactQuery.

(** A query key of this client: an array of strings. *)
Definition QueryKey := list jsstring.

Record Query := {
  data : option JSON;
  error : option JsError;
  isInvalidated : bool
}.

Definition set_invalidated (q : Query) : Query :=
  {| data := data q; error := error q; isInvalidated := true |}.

(** A filter key matches every query whose key it is a prefix of. *)
Fixpoint partialMatchKey (key filterKey : QueryKey) : bool :=
  match filterKey, key with
  | [], _ => true
  | f :: fs, k :: ks => bool_decide (f = k) && partialMatchKey ks fs
  | _ :: _, [] => false
  end.

(** The first half of [invalidateQueries]: every matching query of the
    cache is marked. *)
Definition mark_invalidated (filterKey : QueryKey) (c : gmap QueryKey Query) :
    gmap QueryKey Query :=
  map_imap (fun k q => Some (if partialMatchKey k filterKey then set_invalidated q else q)) c.

(** A failed query function is tried again, three more times by default. *)
Fixpoint retryer {S A} (retries : nat) (fn : M S A) : M S A :=
  try_catch fn (fun e =>
    match retries with
    | O => throw e
    | S n => retryer n fn
    end).

Definition query_retries : nat := 3.

(** What a fetch leaves in the cache under the key. *)
Definition settle (old : option Query) (r : Completion JSON) : Query :=
  match r with
  | Normal d => {| data := Some d; error := None; isInvalidated := false |}
  | Throw e =>
    {| data := old ≫= data; error := Some e;
       isInvalidated := from_option isInvalidated false old |}
  end.

End ReactQuery.

Export ReactQuery.

Module App.

Inductive ToastKind := ToastSuccess | ToastError.

(** What [ImageSearchApp] holds between two events: its three [useState]
    cells, the query client's cache, the notifications shown so far, the
    files the browser saved, and the requests sent. *)
Record AppState := {
  searchQueryText : jsstring;
  uploadFile : option File;
  uploadDescription : jsstring;
  cache : gmap QueryKey Query;
  toasts : list (ToastKind * jsstring);
  downloads : list (jsstring * Blob);
  requests : list Request
}.

Definition setSearchQueryText (t : jsstring) (s : AppState) : AppState :=
  {| searchQueryText := t; uploadFile := uploadFile s;
     uploadDescription := uploadDescription s; cache := cache s;
     toasts := toasts s; downloads := downloads s; requests := requests s |}.

Definition setUploadFile (f : option File) (s : AppState) : AppState :=
  {| searchQueryText := searchQueryText s; uploadFile := f;
     uploadDescription := uploadDescription s; cache := cache s;
     toasts := toasts s; downloads := downloads s; requests := requests s |}.

Definition setUploadDescription (d : jsstring) (s : AppState) : AppState :=
  {| searchQueryText := searchQueryText s; uploadFile := uploadFile s;
     uploadDescription := d; cache := cache s;
     toasts := toasts s; downloads := downloads s; requests := requests s |}.

Definition set_cache (c : gmap QueryKey Query) (s : AppState) : AppState :=
  {| searchQueryText := searchQueryText s; uploadFile := uploadFile s;
     uploadDescription := uploadDescription s; cache := c;
     toasts := toasts s; downloads := downloads s; requests := requests s |}.

Definition set_toasts (t : list (ToastKind * jsstring)) (s : AppState) : AppState :=
  {| searchQueryText := searchQueryText s; uploadFile := uploadFile s;
     uploadDescription := uploadDescription s; cache := cache s;
     toasts := t; downloads := downloads s; requests := requests s |}.

Definition set_downloads (d : list (jsstring * Blob)) (s : AppState) : AppState :=
  {| searchQueryText := searchQueryText s; uploadFile := uploadFile s;
     uploadDescription := uploadDescription s; cache := cache s;
     toasts := toasts s; downloads := d; requests := requests s |}.

Definition set_requests (r : list Request) (s : AppState) : AppState :=
  {| searchQueryText := searchQueryText s; uploadFile := uploadFile s;
     uploadDescription := uploadDescription s; cache := cache s;
     toasts := toasts s; downloads := downloads s; requests := r |}.

(** The state of a freshly mounted component. *)
Definition initial : AppState :=
  {| searchQueryText := []; uploadFile := None; uploadDescription := [];
     cache := ∅; toasts := []; downloads := []; requests := [] |}.

(** Network code run from the component: it extends the request log. *)
Definition liftAsync {A} (m : Async A) : M AppState A :=
  fun s => let '(r, log) := m (requests s) in (r, set_requests log s).

(** The [toast] object as the page sees it: the members it calls, each
    present or not. *)
Record ToastApi := {
  toast_success : option (jsstring -> M AppState unit);
  toast_error : option (jsstring -> M AppState unit)
}.

(** [obj.name(arg)]: calling a member that is not there throws a TypeError. *)
Definition call_member (name : string) (member : option (jsstring -> M AppState unit))
    (arg : jsstring) : M AppState unit :=
  match member with
  | Some f => f arg
  | None => throw (mkError TypeError (js "toast." ++ js name ++ js " is not a function"))
  end.

(** sonner's [toast]: each call shows one more notification. *)
Definition sonner_show (k : ToastKind) (msg : jsstring) : M AppState unit :=
  modify (fun s => set_toasts (toasts s ++ [(k, msg)]) s).

Definition sonner_toast : ToastApi :=
  {| toast_success := Some (sonner_show ToastSuccess);
     toast_error := Some (sonner_show ToastError) |}.

(** A mounted [useQuery]: its key, whether it is enabled, its function. *)
Record Observer := {
  queryKey : QueryKey;
  enabled : bool;
  queryFn : Async JSON
}.

(** The query function is run (with retries) and the cache entry settled.
    The promise of a refetch resolves even when the query fails. *)
Definition fetchQuery (o : Observer) : M AppState unit :=
  fun s =>
    let '(r, s') := liftAsync (retryer query_retries (queryFn o)) s in
    (Normal tt, set_cache (<[queryKey o := settle (cache s' !! queryKey o) r]> (cache s')) s').

(** What a query does by itself, on mount or when its key changes: it
    fetches if it is enabled. *)
Definition fetchOptionally (o : Observer) : M AppState unit :=
  if enabled o then fetchQuery o else ret tt.

(** [refetch()] of a [useQuery] result: a manual fetch, which the library
    runs whether the query is enabled or not ([enabled] only stops the
    fetches a query starts by itself). *)
Definition refetch (o : Observer) : M AppState unit := fetchQuery o.

Fixpoint run_all (ms : list (M AppState unit)) : M AppState unit :=
  match ms with
  | [] => ret tt
  | m :: rest => m;; run_all rest
  end.

(** [queryClient.invalidateQueries({ queryKey })]: the matching queries
    are marked, and those with an enabled observer are fetched again. *)
Definition invalidateQueries (observers : list Observer) (key : QueryKey) : M AppState unit :=
  modify (fun s => set_cache (mark_invalidated key (cache s)) s);;
  run_all (map fetchQuery
    (List.filter (fun o => enabled o && partialMatchKey (queryKey o) key) observers)).

(** Errors that escape a mutation's callbacks stay inside [mutate]. *)
Definition swallow (m : M AppState unit) : M AppState unit :=
  try_catch m (fun _ => ret tt).

(** [useMutation({ mutationFn, onSuccess, onError }).mutate(variables)]:
    a mutation is not retried; [onSuccess] runs after a result, and
    [onError] after a failure of the function or of [onSuccess]. *)
Definition mutate {V D} (mutationFn : V -> Async D)
    (onSuccess : D -> V -> M AppState unit) (onError : JsError -> M AppState unit)
    (variables : V) : M AppState unit :=
  swallow
    (try_catch
       (d ← liftAsync (mutationFn variables); onSuccess d variables)
       (fun e => onError e;; throw e)).

(** What the user and the page's life cycle do to the component.  An
    event is handled to its end, awaited continuations included, before
    the next one; timers (stale times, retry delays) are not modelled.
    [Mount] is the first mount of the page, under a new [QueryClient]:
    the cells of [useState] hold their initial values and nothing is
    cached.  A later mount under the same client, which starts the cells
    over and which the stale time of the image list may keep from
    fetching, is not an event of this model. *)
Inductive Event :=
| Mount
| ChangeSearchText (t : jsstring)
| ClickSearch
| ClickRefresh
| ChangeFile (f : option File)
| ChangeDescription (t : jsstring)
| ClickAddImage
| ClickDownload (imageId : number).

End App.

Export App.

(** ** src/app/page.tsx *)

Module Page.

Definition API_BASE : jsstring := js "http://localhost:5000".

(** [const toast = {} as any;] an object with no member. *)
Definition toast : ToastApi := {| toast_success := None; toast_error := None |}.

Definition handleResponse (response : Response) : Async JSON :=
  if negb (ok response) then
    let errorText := text response in
    throw (mkError Error (or_else errorText (js "An error occurred")))
  else lift_completion (json response).

Definition fetchImages (net : Network) : Async JSON :=
  response ← fetch net
    {| url := API_BASE ++ js "/list_images"; method := GET; body := None |};
  handleResponse response.

Definition searchImages (net : Network) (args : SearchArgs) : Async JSON :=
  let topK := default 5%Z (topK args) in
  encoded ← lift_completion (encodeURIComponent (query args));
  response ← fetch net
    {| url := API_BASE ++ js "/search?query=" ++ encoded ++ js "&top_k=" ++ Number_toString topK;
       method := GET; body := None |};
  handleResponse response.

Definition addImage (net : Network) (args : AddArgs) : Async JSON :=
  let formData : FormData := [] in
  let formData := FormData_append (js "image") (FormFile (file args)) formData in
  let formData := FormData_append (js "description") (FormString (add_description args)) formData in
  response ← fetch net
    {| url := API_BASE ++ js "/add_image"; method := POST; body := Some formData |};
  handleResponse response.

Definition downloadImage (net : Network) (imageId : number) : Async Blob :=
  response ← fetch net
    {| url := API_BASE ++ js "/download_image/" ++ Number_toString imageId;
       method := GET; body := None |};
  if negb (ok response) then
    let errorText := text response in
    throw (mkError Error (or_else errorText (js "Failed to download image")))
  else ret (blob response).

(** The component [ImageSearchApp]. *)

Definition imagesQuery (net : Network) : Observer :=
  {| queryKey := [js "images"]; enabled := true; queryFn := fetchImages net |}.

Definition searchResultsQuery (net : Network) (s : AppState) : Observer :=
  {| queryKey := [js "search"; searchQueryText s];
     enabled := truthy (searchQueryText s);
     queryFn := searchImages net {| query := searchQueryText s; topK := None |} |}.

Definition observers (net : Network) (s : AppState) : list Observer :=
  [imagesQuery net; searchResultsQuery net s].

Definition addImage_onSuccess (net : Network) (_ : JSON) (_ : AddArgs) : M AppState unit :=
  call_member "success" (toast_success toast) (js "Image added successfully!");;
  (s ← get; invalidateQueries (observers net s) [js "images"]);;
  modify (setUploadFile None);;
  modify (setUploadDescription []).

Definition addImage_onError (_ : JsError) : M AppState unit :=
  call_member "error" (toast_error toast) (js "Error adding image").

Definition addImageMutation (net : Network) : AddArgs -> M AppState unit :=
  mutate (addImage net) (addImage_onSuccess net) addImage_onError.

(** The link that is clicked saves the blob as [image_<id>.jpg]. *)
Definition download_onSuccess (b : Blob) (imageId : number) : M AppState unit :=
  modify (fun s =>
    set_downloads (downloads s ++ [(js "image_" ++ Number_toString imageId ++ js ".jpg", b)]) s);;
  call_member "success" (toast_success toast) (js "Image downloaded successfully!").

Definition download_onError (_ : JsError) : M AppState unit :=
  call_member "error" (toast_error toast) (js "Error downloading image").

Definition downloadImageMutation (net : Network) : number -> M AppState unit :=
  mutate (downloadImage net) download_onSuccess download_onError.

Definition handleUpload (net : Network) : M AppState unit :=
  s ← get;
  match uploadFile s with
  | None => call_member "error" (toast_error toast) (js "Please select a file to upload")
  | Some f => addImageMutation net {| file := f; add_description := uploadDescription s |}
  end.

(** [e.target.files?.[0]] is the argument. *)
Definition handleFileChange (f : option File) : M AppState unit :=
  match f with
  | Some f' => modify (setUploadFile (Some f'))
  | None => ret tt
  end.

(** What each event runs.  On the first mount the two queries start by
    themselves: [imagesQuery] fetches, nothing being cached, and
    [searchResultsQuery] fetches if it is enabled. *)
Definition handle (net : Network) (e : Event) : M AppState unit :=
  match e with
  | Mount =>
    s ← get; fetchOptionally (imagesQuery net);; fetchOptionally (searchResultsQuery net s)
  | ChangeSearchText t =>
    modify (setSearchQueryText t);;
    (s ← get; fetchOptionally (searchResultsQuery net s))
  | ClickSearch => s ← get; refetch (searchResultsQuery net s)
  | ClickRefresh => refetch (imagesQuery net)
  | ChangeFile f => handleFileChange f
  | ChangeDescription t => modify (setUploadDescription t)
  | ClickAddImage => handleUpload net
  | ClickDownload imageId => downloadImageMutation net imageId
  end.

(** The state after an event; an error that escapes a handler is lost to
    the component. *)
Definition step (net : Network) (s : AppState) (e : Event) : AppState :=
  snd (handle net e s).

Definition run (net : Network) (events : list Event) (s : AppState) : AppState :=
  fold_left (step net) events s.

End Page.

(** ** src/unnamed/part_000 *)

Module Part000.

Definition API_BASE : jsstring := js "http://localhost:5000".

(** [import { Toaster, toast } from "sonner";] *)
Definition toast : ToastApi := sonner_toast.

Definition handleResponse (response : Response) : Async JSON :=
  if negb (ok response) then
    let errorText := text response in
    throw (mkError Error (or_else errorText (js "An error occurred")))
  else lift_completion (json response).

Definition fetchImages (net : Network) : Async JSON :=
  response ← fetch net
    {| url := API_BASE ++ js "/list_images"; method := GET; body := None |};
  handleResponse response.

Definition searchImages (net : Network) (args : SearchArgs) : Async JSON :=
  let topK := default 5%Z (topK args) in
  encoded ← lift_completion (encodeURIComponent (query args));
  response ← fetch net
    {| url := API_BASE ++ js "/search?query=" ++ encoded ++ js "&top_k=" ++ Number_toString topK;
       method := GET; body := None |};
  handleResponse response.

Definition addImage (net : Network) (args : AddArgs) : Async JSON :=
  let formData : FormData := [] in
  let formData := FormData_append (js "image") (FormFile (file args)) formData in
  let formData := FormData_append (js "description") (FormString (add_description args)) formData in
  response ← fetch net
    {| url := API_BASE ++ js "/add_image"; method := POST; body := Some formData |};
  handleResponse response.

Definition downloadImage (net : Network) (imageId : number) : Async Blob :=
  response ← fetch net
    {| url := API_BASE ++ js "/download_image/" ++ Number_toString imageId;
       method := GET; body := None |};
  if negb (ok response) then
    let errorText := text response in
    throw (mkError Error (or_else errorText (js "Failed to download image")))
  else ret (blob response).

(** The component [ImageSearchApp]. *)

Definition imagesQuery (net : Network) : Observer :=
  {| queryKey := [js "images"]; enabled := true; queryFn := fetchImages net |}.

Definition searchResultsQuery (net : Network) (s : AppState) : Observer :=
  {| queryKey := [js "search"; searchQueryText s];
     enabled := truthy (searchQueryText s);
     queryFn := searchImages net {| query := searchQueryText s; topK := None |} |}.

Definition observers (net : Network) (s : AppState) : list Observer :=
  [imagesQuery net; searchResultsQuery net s].

Definition addImage_onSuccess (net : Network) (_ : JSON) (_ : AddArgs) : M AppState unit :=
  call_member "success" (toast_success toast) (js "Image added successfully!");;
  (s ← get; invalidateQueries (observers net s) [js "images"]);;
  modify (setUploadFile None);;
  modify (setUploadDescription []).

Definition addImage_onError (error : JsError) : M AppState unit :=
  call_member "error" (toast_error toast) (js "Error adding image: " ++ message error).

Definition addImageMutation (net : Network) : AddArgs -> M AppState unit :=
  mutate (addImage net) (addImage_onSuccess net) addImage_onError.

(** The link that is clicked saves the blob as [image_<id>.jpg]. *)
Definition download_onSuccess (b : Blob) (imageId : number) : M AppState unit :=
  modify (fun s =>
    set_downloads (downloads s ++ [(js "image_" ++ Number_toString imageId ++ js ".jpg", b)]) s);;
  call_member "success" (toast_success toast) (js "Image downloaded successfully!").

Definition download_onError (error : JsError) : M AppState unit :=
  call_member "error" (toast_error toast) (js "Error downloading image: " ++ message error).

Definition downloadImageMutation (net : Network) : number -> M AppState unit :=
  mutate (downloadImage net) download_onSuccess download_onError.

Definition handleUpload (net : Network) : M AppState unit :=
  s ← get;
  match uploadFile s with
  | None => call_member "error" (toast_error toast) (js "Please select a file to upload")
  | Some f => addImageMutation net {| file := f; add_description := uploadDescription s |}
  end.

(** [e.target.files?.[0]] is the argument. *)
Definition handleFileChange (f : option File) : M AppState unit :=
  match f with
  | Some f' => modify (setUploadFile (Some f'))
  | None => ret tt
  end.

(** What each event runs.  On the first mount the two queries start by
    themselves: [imagesQuery] fetches, nothing being cached, and
    [searchResultsQuery] fetches if it is enabled. *)
Definition handle (net : Network) (e : Event) : M AppState unit :=
  match e with
  | Mount =>
    s ← get; fetchOptionally (imagesQuery net);; fetchOptionally (searchResultsQuery net s)
  | ChangeSearchText t =>
    modify (setSearchQueryText t);;
    (s ← get; fetchOptionally (searchResultsQuery net s))
  | ClickSearch => s ← get; refetch (searchResultsQuery net s)
  | ClickRefresh => refetch (imagesQuery net)
  | ChangeFile f => handleFileChange f
  | ChangeDescription t => modify (setUploadDescription t)
  | ClickAddImage => handleUpload net
  | ClickDownload imageId => downloadImageMutation net imageId
  end.

(** The state after an event; an error that escapes a handler is lost to
    the component. *)
Definition step (net : Network) (s : AppState) (e : Event) : AppState :=
  snd (handle net e s).

Definition run (net : Network) (events : list Event) (s : AppState) : AppState :=
  fold_left (step net) events s.

End Part000.

(** ** The vector index (specification, section 4.1)

    The engine runs behind the HTTP interface; the sources hold only the
    client.  [Engine] is the index as the specification describes it,
    its vectors being sequences of floating-point components (section 3),
    here IEEE 754 binary64 with every operation rounded to nearest. *)

Module Engine.

Local Open Scope float_scope.

(** Modelled from the spec: an embedding vector, "a fixed-length ordered
    sequence of floating-point components" (section 3); the engine's own
    type is not in the sources. *)
Definition Vector := list float.

(** Modelled from the spec: the dot product of the cosine formula of
    section 4.1, each product and each sum rounded; the engine's code is
    not in the sources. *)
Fixpoint dot (a b : Vector) : float :=
  match a, b with
  | x :: a', y :: b' => x * y + dot a' b'
  | _, _ => 0
  end.

(** Modelled from the spec: the L2 norm that an index entry caches
    (section 3); the engine's code is not in the sources. *)
Definition norm (v : Vector) : float := PrimFloat.sqrt (dot v v).


(** Modelled from the spec: a vector index entry [(id, vector, norm)]
    with the norm precomputed (section 3). *)
Record Entry := {
  entry_id : Z;
  vector : Vector;
  entry_norm : float
}.

(** Modelled from the spec: the index, its entries and the dimension [D],
    "fixed after the first successful insertion" (section 3). *)
Record Index := {
  dimension : option nat;
  entries : list Entry
}.

(** Modelled from the spec: the failures of the index operations
    (section 4.1). *)
Inductive IndexError := DimensionMismatch | DuplicateId | NotFound.

(** Modelled from the spec: one operation after another, stopping at the
    first that fails ("fail without mutating state", section 3). *)
Definition and_then {A B} (r : IndexError + A) (f : A -> IndexError + B) : IndexError + B :=
  match r with
  | inr a => f a
  | inl e => inl e
  end.

(** Modelled from the spec: the index before the first insertion. *)
Definition empty : Index := {| dimension := None; entries := [] |}.

(** Modelled from the spec: a vector is admitted when no dimension is
    fixed yet or it has exactly [D] components. *)
Definition dimension_ok (v : Vector) (idx : Index) : bool :=
  match dimension idx with
  | Some d => bool_decide (length v = d)
  | None => true
  end.

(** Modelled from the spec: the ids the index holds. *)
Definition ids (idx : Index) : list Z := map entry_id (entries idx).

(** Modelled from the spec: [insert(id, vector)] of section 4.1, failing
    with [DimensionMismatch] or [DuplicateId] without changing the index. *)
Definition insert (i : Z) (v : Vector) (idx : Index) : IndexError + Index :=
  if negb (dimension_ok v idx) then inl DimensionMismatch
  else if bool_decide (i ∈ ids idx) then inl DuplicateId
  else inr {| dimension := Some (length v);
              entries := entries idx ++ [{| entry_id := i; vector := v; entry_norm := norm v |}] |}.

(** Modelled from the spec: [remove(id)] of section 4.1, [NotFound] when
    the id is absent. *)
Definition remove (i : Z) (idx : Index) : IndexError + Index :=
  if bool_decide (i ∈ ids idx) then
    inr {| dimension := dimension idx;
           entries := List.filter (fun e => negb (bool_decide (entry_id e = i))) (entries idx) |}
  else inl NotFound.


(** Modelled from the spec: the similarity reported for an entry, from
    the query's norm and the entry's cached norm. *)
Definition similarity (q : Vector) (q_norm : float) (e : Entry) : float :=
  if (q_norm =? 0) || (entry_norm e =? 0) then 0
  else dot q (vector e) / (q_norm * entry_norm e).

(** Modelled from the spec: a search result [(id, similarity)]
    (section 3). *)
Definition score (q : Vector) (e : Entry) : Z * float :=
  (entry_id e, similarity q (norm q) e).

(** Modelled from the spec: the comparison that sorts the results,
    "descending by similarity; ties broken by ascending id" (section
    4.1), with the comparisons of the floating-point unit. *)
Definition rank (a b : Z * float) : bool :=
  (snd b <? snd a) || ((snd a =? snd b) && (fst a <=? fst b)%Z).

(** Modelled from the spec: a result put into results already in order,
    before the first one that it is to precede. *)
Fixpoint place (x : Z * float) (l : list (Z * float)) : list (Z * float) :=
  match l with
  | [] => [x]
  | y :: l' => if rank x y then x :: l else y :: place x l'
  end.

(** Modelled from the spec: the scored entries, sorted. *)
Definition ranked (l : list (Z * float)) : list (Z * float) := foldr place [] l.

(** Modelled from the spec: [search(query_vector, k)] of section 4.1, the
    brute-force scan: every entry is scored, the scores are sorted, the
    first [k] are returned; a query of the wrong length fails with
    [DimensionMismatch]. *)
Definition search (q : Vector) (k : nat) (idx : Index) : IndexError + list (Z * float) :=
  if negb (dimension_ok q idx) then inl DimensionMismatch
  else inr (take k (ranked (map (score q) (entries idx)))).

(** Modelled from the spec: the invariant of section 3 as far as the
    index alone holds it: ids are unique, every vector has the fixed
    dimension, every cached norm is the norm of its vector. *)
Definition wf (idx : Index) : Prop :=
  NoDup (ids idx)
  /\ (forall e, e ∈ entries idx -> dimension idx = Some (length (vector e)))
  /\ (forall e, e ∈ entries idx -> entry_norm e = norm (vector e)).

End Engine.

(** ** What the specification says of the results

    The words of sections 4.1 and 8, apart from the code that is to meet
    them. *)

Module Ranking.

Local Open Scope float_scope.







End Ranking.

Export Ranking.

(** ** The order of floating-point numbers *)

Module FloatPlace.

Local Open Scope Z_scope.





End FloatPlace.

Export FloatPlace.

(** ** The wire contract, as a reader of the requests sees it *)

Module Wire.

(** The four operations of the interface table (specification, section 6). *)
Inductive Endpoint := ListImages | Search | AddImage | DownloadImage.

#[global] Instance Endpoint_eq_dec : EqDecision Endpoint.
Proof. solve_decision. Defined.

Definition endpoint_name (e : Endpoint) : jsstring :=
  match e with
  | ListImages => js "list_images"
  | Search => js "search"
  | AddImage => js "add_image"
  | DownloadImage => js "download_image"
  end.

Definition all_endpoints : list Endpoint := [ListImages; Search; AddImage; DownloadImage].

Fixpoint strip_prefix (p s : jsstring) : option jsstring :=
  match p, s with
  | [], _ => Some s
  | a :: p', b :: s' => if decide (a = b) then strip_prefix p' s' else None
  | _ :: _, [] => None
  end.

(** The first path segment: the characters before the first [/] or [?],
    and what follows them. *)
Fixpoint segment (s : jsstring) : jsstring * jsstring :=
  match s with
  | [] => ([], [])
  | c :: rest =>
    if bool_decide (c = 47%N) || bool_decide (c = 63%N) then ([], s)
    else let '(seg, tail) := segment rest in (c :: seg, tail)
  end.

(** The operation a URL addresses under [base], with the rest of the URL. *)
Definition endpoint_of (base u : jsstring) : option (Endpoint * jsstring) :=
  match strip_prefix (base ++ js "/") u with
  | Some rest =>
    let '(seg, tail) := segment rest in
    match List.find (fun e => bool_decide (endpoint_name e = seg)) all_endpoints with
    | Some e => Some (e, tail)
    | None => None
    end
  | None => None
  end.

Definition targets (base : jsstring) (e : Endpoint) (r : Request) : Prop :=
  fst <$> endpoint_of base (url r) = Some e.

(** The pieces of [s] between the occurrences of [sep]. *)
Fixpoint split_on (sep : N) (s : jsstring) : list jsstring :=
  match s with
  | [] => [[]]
  | c :: rest =>
    if bool_decide (c = sep) then [] :: split_on sep rest
    else match split_on sep rest with
         | piece :: pieces => (c :: piece) :: pieces
         | [] => [[c]]
         end
  end.

(** [name=value], cut at the first [=]. *)
Fixpoint name_value (s : jsstring) : jsstring * jsstring :=
  match s with
  | [] => ([], [])
  | c :: rest =>
    if bool_decide (c = 61%N) then ([], rest)
    else let '(n, v) := name_value rest in (c :: n, v)
  end.

(** The parameters of a query string [?a=b&c=d], values still encoded. *)
Definition query_params (tail : jsstring) : option (list (jsstring * jsstring)) :=
  match tail with
  | 63%N :: qs => Some (map name_value (split_on 38 qs))
  | _ => None
  end.

(** What [encodeURIComponent] can put out: unreserved characters, [%]
    and hexadecimal digits. *)
Definition uri_safe (c : N) : bool :=
  is_unescaped c || bool_decide (c = 37%N).

(** A string with no surrogate that lacks its partner. *)
Fixpoint well_formed (s : jsstring) : bool :=
  match s with
  | [] => true
  | c :: rest =>
    if is_high_surrogate c then
      match rest with
      | d :: rest' => is_low_surrogate d && well_formed rest'
      | [] => false
      end
    else negb (is_low_surrogate c) && well_formed rest
  end.

End Wire.

Export Wire.

(** ** Vocabulary of the statements *)

Module Statements.

(** Every request that [m] adds to the log addresses [e] under [base],
    and there is at most one of them. *)
Definition calls_only {A} (base : jsstring) (e : Endpoint) (m : Async A) : Prop :=
  forall log, exists new,
    snd (m log) = log ++ new /\ length new <= 1 /\ Forall (targets base e) new.

(** The request [r] addresses one of the four operations under [base]. *)
Definition on_contract (base : jsstring) (r : Request) : Prop :=
  exists e, e ∈ all_endpoints /\ targets base e r.

(** The search request for the empty text. *)
Definition empty_search_request : Request :=
  {| url := js "http://localhost:5000/search?query=&top_k=5"; method := GET; body := None |}.

(** The request that lists the images. *)
Definition list_images_request : Request :=
  {| url := js "http://localhost:5000/list_images"; method := GET; body := None |}.

(** What calling a member of the empty [toast] object throws. *)
Definition no_toast_error : JsError :=
  mkError TypeError (js "toast.error is not a function").

Definition no_toast_success : JsError :=
  mkError TypeError (js "toast.success is not a function").

End Statements.

Export Statements.

(** ** A server to run the client against *)

Module Demo.

Definition demo_image : Image :=
  {| id := 1; filename := js "cat.png"; description := None |}.

Definition demo_file : File :=
  {| file_name := js "cat.png"; file_bytes := [Byte.x89; Byte.x50; Byte.x4e; Byte.x47] |}.

(** Answers [add_image] with an image record that has no description,
    knows no image to download, and lists nothing. *)
Definition demo_server : Network :=
  fun _ r =>
    match fst <$> endpoint_of Page.API_BASE (url r) with
    | Some AddImage =>
      Normal {| ok := true; text := []; json := Normal (Image_to_JSON demo_image); blob := [] |}
    | Some DownloadImage =>
      Normal {| ok := false; text := js "Image not found";
                json := Throw (mkError SyntaxError []); blob := [] |}
    | Some _ =>
      Normal {| ok := true; text := js "[]"; json := Normal (JArray []); blob := [] |}
    | None => Throw (mkError TypeError (js "Failed to fetch"))
    end.

(** Serves every download with the same four bytes. *)
Definition blob_server : Network :=
  fun _ _ =>
    Normal {| ok := true; text := []; json := Throw (mkError SyntaxError []);
              blob := file_bytes demo_file |}.

(** Refuses everything, with an empty error text. *)
Definition silent_server : Network :=
  fun _ _ =>
    Normal {| ok := false; text := []; json := Throw (mkError SyntaxError []); blob := [] |}.

End Demo.

Export Demo.

Module Scenario.

(** A session: the page is mounted, a search is typed, a file and a
    description are chosen. *)
Definition before_upload : list Event :=
  [Mount; ChangeSearchText (js "cat"); ChangeFile (Some demo_file); ChangeDescription (js "a cat")].

Definition add_image_request : Request :=
  {| url := js "http://localhost:5000/add_image"; method := POST;
     body := Some [(js "image", FormFile demo_file); (js "description", FormString (js "a cat"))] |}.

End Scenario.

Export Scenario.

Module Footprint.

(** Whatever [m] adds to the request log (read off the state with [log])
    addresses one of the four operations. *)
Definition sends_on_contract {S A} (log : S -> list Request) (m : M S A) : Prop :=
  forall s, exists new,
    log (snd (m s)) = log s ++ new /\ Forall (on_contract Page.API_BASE) new.

(** For network code the state is the log itself. *)
Definition whole (l : list Request) : list Request := l.

End Footprint.

Export Footprint.

(** ** The scenarios of the specification (section 8) *)

Module EngineScenario.

Import Engine.

Local Open Scope float_scope.

(** Three images with the vectors [[1,0]], [[0,1]] and [[0.7,0.7]], 0.7
    being the binary64 number nearest to it. *)
Definition scenario_entries : list Entry :=
  [ {| entry_id := 1; vector := [1; 0]; entry_norm := norm [1; 0] |};
    {| entry_id := 2; vector := [0; 1]; entry_norm := norm [0; 1] |};
    {| entry_id := 3; vector := [0x1.6666666666666p-1; 0x1.6666666666666p-1];
       entry_norm := norm [0x1.6666666666666p-1; 0x1.6666666666666p-1] |} ].

Definition scenario_index : Index :=
  {| dimension := Some 2%nat; entries := scenario_entries |}.





End EngineScenario.

(** ** What the page writes out for an image *)

Module View.

(** [src={`${API_BASE}/download_image/${image.id}`}] of a thumbnail. *)
Definition thumbnail_src (imageId : number) : jsstring :=
  Page.API_BASE ++ js "/download_image/" ++ Number_toString imageId.

(** [link.download = `image_${imageId}.jpg`]. *)
Definition download_name (imageId : number) : jsstring :=
  js "image_" ++ Number_toString imageId ++ js ".jpg".

End View.

Export View.

(** ** Numbers and their digits *)

Module Numbers.

(** The integers that a JavaScript number holds exactly and prints digit
    for digit: those of size up to 2^53. *)
Definition exact_integer (n : number) : Prop := (Z.abs n <= 2 ^ 53)%Z.

(** The number that [response.json()] makes of an integer in the body:
    the binary64 value nearest to it, ties to the even mantissa; [None]
    beyond the largest of them. *)
Definition JSON_integer (n : Z) : option number :=
  match binary_normalize 53 1024 n 0 false with
  | S754_zero _ => Some 0%Z
  | S754_finite s m e => Some (Z.shiftl (cond_Zopp s (Z.pos m)) e)
  | _ => None
  end.

(** The text of code units that are all single bytes. *)
Definition ascii_text (s : jsstring) : option string :=
  if forallb (fun c => c <? 256)%N s then Some (string_of_list_ascii (map ascii_of_N s))
  else None.

(** The integer that a decimal numeral denotes, as a reader of the URL
    takes it: digits, after a minus sign or not. *)
Definition decimal_value (s : jsstring) : option Z :=
  match ascii_text s with
  | Some t => option_map Z.of_int (NilZero.int_of_string t)
  | None => None
  end.

End Numbers.

Export Numbers.

(** ** Footprints and frames of component code *)

Module Frames.

(** Every request that [m] adds to the log (read off the state with
    [log]) satisfies [P]. *)
Definition sends_only {S A} (P : Request -> Prop) (log : S -> list Request) (m : M S A) : Prop :=
  forall s, exists new, log (snd (m s)) = log s ++ new /\ Forall P new.

(** [m] leaves the part [part] of the component's state as it was. *)
Definition keeps {A B} (part : AppState -> B) (m : M AppState A) : Prop :=
  forall s, part (snd (m s)) = part s.

(** A part of the state that neither the request log nor the cache
    belongs to. *)
Definition off_network {B} (part : AppState -> B) : Prop :=
  (forall l s, part (set_requests l s) = part s)
  /\ (forall c s, part (set_cache c s) = part s).

(** The form of the requests of this client: a GET without a body,
    except for [add_image], a POST with the two form fields; a search
    always asks for the five best. *)
Definition shaped (r : Request) : Prop :=
  match endpoint_of Page.API_BASE (url r) with
  | Some (ListImages, tail) => tail = [] /\ method r = GET /\ body r = None
  | Some (Search, tail) =>
    method r = GET /\ body r = None
    /\ exists e, query_params tail = Some [(js "query", e); (js "top_k", js "5")]
  | Some (AddImage, tail) =>
    tail = [] /\ method r = POST
    /\ exists f d, body r = Some [(js "image", FormFile f); (js "description", FormString d)]
  | Some (DownloadImage, tail) =>
    method r = GET /\ body r = None /\ exists imageId, tail = js "/" ++ Number_toString imageId
  | None => False
  end.

(** The requests of the API layer, by their arguments. *)
Definition search_request (e : jsstring) (k : number) : Request :=
  {| url := Page.API_BASE ++ js "/search?query=" ++ e ++ js "&top_k=" ++ Number_toString k;
     method := GET; body := None |}.
Arguments search_request e k%_Z.

Definition add_request (f : File) (d : jsstring) : Request :=
  {| url := Page.API_BASE ++ js "/add_image"; method := POST;
     body := Some [(js "image", FormFile f); (js "description", FormString d)] |}.

Definition download_request (imageId : number) : Request :=
  {| url := Page.API_BASE ++ js "/download_image/" ++ Number_toString imageId;
     method := GET; body := None |}.
Arguments download_request imageId%_Z.

(** The address of the first request of a list. *)
Definition first_url (l : list Request) : jsstring :=
  match l with
  | r :: _ => url r
  | [] => []
  end.

(** The error thrown for a response that is not OK: an [Error] whose
    message is the response text, or, the text being empty, a message that
    is not empty either. *)
Definition refusal (resp : Response) (e : JsError) : Prop :=
  kind e = Error /\ message e <> [] /\ (text resp <> [] -> message e = text resp).

(** How a call of the API layer that sends [r] may end: with the data of
    an OK response ([read] says which data), with the refusal of one that
    is not OK, with the failure to read the data, or with the failure of
    the fetch itself. *)
Definition outcome_of {A} (net : Network) (log : list Request) (r : Request)
    (read : Response -> Completion A) (result : Completion A) : Prop :=
  match net log r with
  | Normal resp =>
    if ok resp then result = read resp
    else exists e, result = Throw e /\ refusal resp e
  | Throw e => result = Throw e
  end.

(** The four functions of an API layer, against the server. *)
Definition api_outcomes
    (fetchImages : Network -> Async JSON)
    (searchImages : Network -> SearchArgs -> Async JSON)
    (addImage : Network -> AddArgs -> Async JSON)
    (downloadImage : Network -> number -> Async Blob) : Prop :=
  forall net log,
    outcome_of net log list_images_request json (fst (fetchImages net log))
    /\ (forall q k e, encodeURIComponent q = Normal e ->
          outcome_of net log (search_request e (default 5%Z k)) json
            (fst (searchImages net {| query := q; topK := k |} log)))
    /\ (forall f d,
          outcome_of net log (add_request f d) json
            (fst (addImage net {| file := f; add_description := d |} log)))
    /\ (forall imageId,
          outcome_of net log (download_request imageId) (fun resp => Normal (blob resp))
            (fst (downloadImage net imageId log))).

End Frames.

Export Frames.

(** ** Reading an encoded component back

    [decodeURIComponent], as far as the strings that [encode] produces
    go; the client never calls it, it serves to show that the encoding
    loses nothing. *)

Module Decoder.

Local Open Scope N_scope.

(** A string of 16-bit code units. *)
Definition is_utf16 (s : jsstring) : bool := forallb (fun c => c <? 0x10000) s.

(** The value of an upper-case hexadecimal digit. *)
Definition unhex (c : N) : option N :=
  if (48 <=? c) && (c <=? 57) then Some (c - 48)
  else if (65 <=? c) && (c <=? 70) then Some (c - 55)
  else None.

(** The octet of a leading [%XX], and what follows it. *)
Definition octet_at (e : jsstring) : option (N * jsstring) :=
  match e with
  | 37 :: h :: l :: rest =>
    match unhex h, unhex l with
    | Some h', Some l' => Some (16 * h' + l', rest)
    | _, _ => None
    end
  | _ => None
  end.

(** [n] continuation octets [10xxxxxx], six bits each, onto [acc]. *)
Fixpoint continuation (n : nat) (acc : N) (e : jsstring) : option (N * jsstring) :=
  match n with
  | O => Some (acc, e)
  | S n' =>
    match octet_at e with
    | Some (b, rest) =>
      if (128 <=? b) && (b <? 192) then continuation n' (64 * acc + (b - 128)) rest
      else None
    | None => None
    end
  end.

(** The code units of a code point. *)
Definition units (cp : N) : jsstring :=
  if cp <? 0x10000 then [cp]
  else [0xD800 + (cp - 0x10000) / 0x400; 0xDC00 + (cp - 0x10000) mod 0x400].

(** The code point of a leading UTF-8 sequence of escaped octets, and
    what follows it. *)
Definition code_point_at (e : jsstring) : option (N * jsstring) :=
  match octet_at e with
  | Some (b, rest) =>
    if b <? 128 then Some (b, rest)
    else if b <? 192 then None
    else if b <? 224 then continuation 1 (b - 192) rest
    else if b <? 240 then continuation 2 (b - 224) rest
    else continuation 3 (b - 240) rest
  | None => None
  end.

(** Percent-decoding followed by UTF-8 decoding, for the strings
    [encode] puts out; each round consumes at least one character. *)
Fixpoint decode (fuel : nat) (e : jsstring) : option jsstring :=
  match fuel with
  | O => None
  | S fuel' =>
    match e with
    | [] => Some []
    | c :: rest =>
      if c =? 37 then
        match code_point_at e with
        | Some (cp, rest') =>
          match decode fuel' rest' with
          | Some s => Some (units cp ++ s)
          | None => None
          end
        | None => None
        end
      else
        match decode fuel' rest with
        | Some s => Some (c :: s)
        | None => None
        end
    end
  end.

End Decoder.

Export Decoder.

(** ** The requests of an event *)

Module Traffic.

(** The requests of a query whose function sends [r]: once, and once
    more each time it is tried again. *)
Definition tries (r : Request) (again : nat) : list Request := repeat r (S again).

(** The requests of the search query for the text [t]; a text that
    [encodeURIComponent] rejects is never sent. *)
Definition search_tries (t : jsstring) (again : nat) : list Request :=
  match encode t with
  | Some e => tries (search_request e 5) again
  | None => []
  end.

(** What an event sends, in this order; [accepted f] says whether the
    upload of [f] is followed by a new fetch of the image list, [n] and
    [m] how often the list and the search are tried again. *)
Definition event_requests (accepted : File -> bool) (s : AppState) (e : Event) (n m : nat) :
    list Request :=
  match e with
  | Mount =>
    tries list_images_request n
    ++ (if truthy (searchQueryText s) then search_tries (searchQueryText s) m else [])
  | ChangeSearchText t => if truthy t then search_tries t m else []
  | ClickSearch => search_tries (searchQueryText s) m
  | ClickRefresh => tries list_images_request n
  | ChangeFile _ | ChangeDescription _ => []
  | ClickAddImage =>
    match uploadFile s with
    | Some f =>
      add_request f (uploadDescription s)
      :: (if accepted f then tries list_images_request n else [])
    | None => []
    end
  | ClickDownload imageId => [download_request imageId]
  end.

(** The state in which the page is mounted first: the cells of
    [useState] hold their initial values and the image list is not in the
    cache. *)
Definition first_mount (s : AppState) : Prop :=
  searchQueryText s = [] /\ uploadFile s = None /\ uploadDescription s = []
  /\ cache s !! [js "images"] = None.

(** Whether a call ended with a value. *)
Definition succeeded {A} (r : Completion A) : bool :=
  match r with
  | Normal _ => true
  | Throw _ => false
  end.

End Traffic.

Export Traffic.

(** * Theorems *)

(** ** Built-ins *)

Section Builtins.

Example encode_space : encode (js "a b&c=d") = Some (js "a%20b%26c%3Dd").
Proof. reflexivity. Qed.

Example encode_latin : encode [0xE9%N] = Some (js "%C3%A9").
Proof. reflexivity. Qed.

Example encode_euro : encode [0x20AC%N] = Some (js "%E2%82%AC").
Proof. reflexivity. Qed.

Example encode_pair : encode [0xD83D%N; 0xDE00%N] = Some (js "%F0%9F%98%80").
Proof. reflexivity. Qed.

Example encode_lone : encode [0xD83D%N; 0x41%N] = None.
Proof. reflexivity. Qed.

Example toString_examples :
  Number_toString 5 = js "5" /\ Number_toString 0 = js "0" /\ Number_toString (-12) = js "-12".
Proof. repeat split; reflexivity. Qed.

Lemma ascii_text_js (t : string) : ascii_text (js t) = Some t.
Proof.
  unfold ascii_text, js.
  assert (H : forallb (fun c => c <? 256)%N (map N_of_ascii (list_ascii_of_string t)) = true).
  { apply forallb_forall. intros c Hc. apply in_map_iff in Hc as (a & <- & _).
    apply N.ltb_lt, N_ascii_bounded. }
  rewrite H, map_map. f_equal.
  rewrite <- (string_of_list_ascii_of_string t) at 2. f_equal. clear H.
  induction (list_ascii_of_string t) as [|a l IH]; simpl; [reflexivity|].
  rewrite ascii_N_embedding, IH. reflexivity.
Qed.

Lemma to_int_nonnil (z : Z) :
  Z.to_int z <> Decimal.Pos Decimal.Nil /\ Z.to_int z <> Decimal.Neg Decimal.Nil.
Proof.
  destruct z as [|p|p]; split; try discriminate; intros E; injection E as E;
    exact (DecimalPos.Unsigned.to_uint_nonnil p E).
Qed.

(** The digits that a number prints as denote that number. *)
Lemma decimal_value_toString (n : number) : decimal_value (Number_toString n) = Some n.
Proof.
  unfold decimal_value, Number_toString. rewrite ascii_text_js.
  destruct (to_int_nonnil n) as [H1 H2].
  rewrite (NilZero.isi _ H1 H2). cbn [option_map]. rewrite DecimalZ.of_to. reflexivity.
Qed.

Lemma hex_digit_unescaped (n : N) : is_unescaped (hex_digit n) = true.
Proof.
  unfold hex_digit. generalize (N.to_nat n) as m. intros m.
  do 16 (destruct m as [|m]; [reflexivity|]). destruct m; reflexivity.
Qed.

Lemma percent_safe (b : N) : Forall (fun c => uri_safe c = true) (percent b).
Proof.
  unfold percent, uri_safe.
  repeat constructor; rewrite ?hex_digit_unescaped; reflexivity.
Qed.

Lemma percent_all_safe (bs : list N) : Forall (fun c => uri_safe c = true) (percent_all bs).
Proof.
  induction bs as [|b bs IH]; [constructor|].
  change (percent_all (b :: bs)) with (percent b ++ percent_all bs).
  apply Forall_app_2; [apply percent_safe | exact IH].
Qed.

(** [encode] looks one or two code units ahead, so facts about it go by
    induction on a bound of the length. *)
Lemma encode_safe_bounded (n : nat) :
  forall s e, length s <= n -> encode s = Some e -> Forall (fun c => uri_safe c = true) e.
Proof.
  induction n as [|n IH]; intros s e Hlen He.
  - destruct s; [|simpl in Hlen; lia]. injection He as <-. constructor.
  - destruct s as [|c rest]; [injection He as <-; constructor|].
    simpl in Hlen, He.
    destruct (is_unescaped c) eqn:Hc.
    + destruct (encode rest) as [r|] eqn:Hr; [|discriminate].
      injection He as <-. constructor.
      * unfold uri_safe. rewrite Hc. reflexivity.
      * apply (IH rest); [lia | exact Hr].
    + destruct (is_high_surrogate c).
      * destruct rest as [|d rest']; [discriminate|].
        destruct (is_low_surrogate d); [|discriminate].
        destruct (encode rest') as [r|] eqn:Hr; [|discriminate].
        injection He as <-. apply Forall_app_2; [apply percent_all_safe|].
        apply (IH rest'); [simpl in Hlen; lia | exact Hr].
      * destruct (is_low_surrogate c); [discriminate|].
        destruct (encode rest) as [r|] eqn:Hr; [|discriminate].
        injection He as <-. apply Forall_app_2; [apply percent_all_safe|].
        apply (IH rest); [lia | exact Hr].
Qed.

(** The output of [encodeURIComponent] holds no delimiter of a URL. *)
Lemma encode_safe (s e : jsstring) :
  encode s = Some e -> Forall (fun c => uri_safe c = true) e.
Proof. apply (encode_safe_bounded (length s)). lia. Qed.

Lemma encode_total_bounded (n : nat) :
  forall s, length s <= n -> well_formed s = true -> is_Some (encode s).
Proof.
  induction n as [|n IH]; intros s Hlen Hwf.
  - destruct s; [eexists; reflexivity | simpl in Hlen; lia].
  - destruct s as [|c rest]; [eexists; reflexivity|].
    simpl in Hlen, Hwf |- *.
    destruct (is_unescaped c) eqn:Hc.
    + assert (Hr : well_formed rest = true).
      { destruct (is_high_surrogate c) eqn:Hh.
        - exfalso. revert Hc Hh. unfold is_unescaped, is_high_surrogate. simpl.
          rewrite !orb_true_iff, !andb_true_iff, !N.leb_le, !N.eqb_eq. lia.
        - apply andb_true_iff in Hwf. tauto. }
      destruct (IH rest ltac:(lia) Hr) as [r ->]. eexists; reflexivity.
    + destruct (is_high_surrogate c).
      * destruct rest as [|d rest']; [discriminate|].
        apply andb_true_iff in Hwf as [-> Hr].
        destruct (IH rest' ltac:(simpl in Hlen; lia) Hr) as [r ->]. eexists; reflexivity.
      * apply andb_true_iff in Hwf as [Hl Hr]. apply negb_true_iff in Hl. rewrite Hl.
        destruct (IH rest ltac:(lia) Hr) as [r ->]. eexists; reflexivity.
Qed.

(** [encodeURIComponent] throws only on a surrogate without its partner. *)
Lemma encode_total (s : jsstring) : well_formed s = true -> is_Some (encode s).
Proof. apply (encode_total_bounded (length s)). lia. Qed.

Lemma encode_malformed_bounded (n : nat) :
  forall s, length s <= n -> well_formed s = false -> encode s = None.
Proof.
  induction n as [|n IH]; intros s Hlen Hwf.
  - destruct s; [discriminate | simpl in Hlen; lia].
  - destruct s as [|c rest]; [discriminate|].
    simpl in Hlen, Hwf |- *.
    destruct (is_unescaped c) eqn:Hc.
    + assert (Hh : is_high_surrogate c = false).
      { destruct (is_high_surrogate c) eqn:Hh; [|reflexivity].
        exfalso. revert Hc Hh. unfold is_unescaped, is_high_surrogate. simpl.
        rewrite !orb_true_iff, !andb_true_iff, !N.leb_le, !N.eqb_eq. lia. }
      assert (Hl : is_low_surrogate c = false).
      { destruct (is_low_surrogate c) eqn:Hl; [|reflexivity].
        exfalso. revert Hc Hl. unfold is_unescaped, is_low_surrogate. simpl.
        rewrite !orb_true_iff, !andb_true_iff, !N.leb_le, !N.eqb_eq. lia. }
      rewrite Hh, Hl in Hwf. simpl in Hwf.
      rewrite (IH rest ltac:(lia) Hwf). reflexivity.
    + destruct (is_high_surrogate c).
      * destruct rest as [|d rest']; [reflexivity|].
        destruct (is_low_surrogate d); [|reflexivity]. simpl in Hwf.
        rewrite (IH rest' ltac:(simpl in Hlen; lia) Hwf). reflexivity.
      * destruct (is_low_surrogate c); [reflexivity|]. simpl in Hwf.
        rewrite (IH rest ltac:(lia) Hwf). reflexivity.
Qed.

Lemma encode_malformed (s : jsstring) : well_formed s = false -> encode s = None.
Proof. apply (encode_malformed_bounded (length s)). lia. Qed.

Lemma split_on_app (sep : N) (a b : jsstring) :
  Forall (fun c => c <> sep) a ->
  split_on sep (a ++ sep :: b) = a :: split_on sep b.
Proof.
  induction 1 as [|c a Hc _ IH]; simpl.
  - rewrite bool_decide_true by reflexivity. reflexivity.
  - rewrite bool_decide_false by exact Hc. rewrite IH. reflexivity.
Qed.

Lemma split_on_none (sep : N) (a : jsstring) :
  Forall (fun c => c <> sep) a -> split_on sep a = [a].
Proof.
  induction 1 as [|c a Hc _ IH]; simpl; [reflexivity|].
  rewrite bool_decide_false by exact Hc. rewrite IH. reflexivity.
Qed.

Lemma uri_safe_not (c d : N) : uri_safe d = false -> uri_safe c = true -> c <> d.
Proof. intros Hd Hc ->. congruence. Qed.

End Builtins.

(** ** The API layer *)

Section ApiLayer.

Variable net : Network.

Lemma page_handleResponse_log (r : Response) (log : list Request) :
  snd (Page.handleResponse r log) = log.
Proof. unfold Page.handleResponse. destruct (ok r); reflexivity. Qed.

Lemma part000_handleResponse_log (r : Response) (log : list Request) :
  snd (Part000.handleResponse r log) = log.
Proof. unfold Part000.handleResponse. destruct (ok r); reflexivity. Qed.

Lemma endpoint_list_images :
  endpoint_of Page.API_BASE (Page.API_BASE ++ js "/list_images") = Some (ListImages, []).
Proof. reflexivity. Qed.

Lemma endpoint_search (tail : jsstring) :
  endpoint_of Page.API_BASE (Page.API_BASE ++ js "/search?query=" ++ tail)
  = Some (Search, js "?query=" ++ tail).
Proof. reflexivity. Qed.

Lemma endpoint_add_image :
  endpoint_of Page.API_BASE (Page.API_BASE ++ js "/add_image") = Some (AddImage, []).
Proof. reflexivity. Qed.

Lemma endpoint_download_image (tail : jsstring) :
  endpoint_of Page.API_BASE (Page.API_BASE ++ js "/download_image/" ++ tail)
  = Some (DownloadImage, js "/" ++ tail).
Proof. reflexivity. Qed.

Lemma query_params_search (e : jsstring) :
  Forall (fun c => uri_safe c = true) e ->
  query_params (js "?query=" ++ e ++ js "&top_k=" ++ Number_toString 5)
  = Some [(js "query", e); (js "top_k", js "5")].
Proof.
  intros He.
  change (js "?query=" ++ e ++ js "&top_k=" ++ Number_toString 5)
    with (63%N :: (js "query=" ++ e) ++ 38%N :: js "top_k=5").
  unfold query_params. rewrite split_on_app.
  - reflexivity.
  - apply Forall_app_2.
    + repeat constructor; discriminate.
    + eapply Forall_impl; [exact He|]. intros c Hc. apply (uri_safe_not c 38%N); [reflexivity | exact Hc].
Qed.

Lemma fetch_then_log {A} (r : Request) (k : Response -> Async A) (log : list Request) :
  (forall a l, snd (k a l) = l) ->
  snd ((fetch net r ≫= k) log) = log ++ [r].
Proof.
  intros Hk. unfold mbind, M_bind, bind, fetch.
  destruct (net log r) as [resp|e]; [apply Hk | reflexivity].
Qed.

Lemma fetch_then_result {A} (r : Request) (k : Response -> Async A) (log : list Request) :
  fst ((fetch net r ≫= k) log) =
  match net log r with
  | Normal resp => fst (k resp (log ++ [r]))
  | Throw e => Throw e
  end.
Proof.
  unfold mbind, M_bind, bind, fetch. destruct (net log r); reflexivity.
Qed.

Lemma page_handleResponse_result (r : Response) (log : list Request) :
  fst (Page.handleResponse r log) =
  if ok r then json r
  else Throw (mkError Error (if decide (text r = []) then js "An error occurred" else text r)).
Proof.
  unfold Page.handleResponse, or_else.
  destruct (ok r); [reflexivity|]. simpl.
  destruct (text r); reflexivity.
Qed.

Lemma page_fetchImages_log (log : list Request) :
  snd (Page.fetchImages net log)
  = log ++ [{| url := Page.API_BASE ++ js "/list_images"; method := GET; body := None |}].
Proof. apply fetch_then_log, page_handleResponse_log. Qed.

Lemma page_searchImages_log (args : SearchArgs) (log : list Request) :
  snd (Page.searchImages net args log) =
  match encode (query args) with
  | Some e =>
    log ++ [{| url := Page.API_BASE ++ js "/search?query=" ++ e ++ js "&top_k="
                      ++ Number_toString (default 5%Z (topK args));
               method := GET; body := None |}]
  | None => log
  end.
Proof.
  unfold Page.searchImages, encodeURIComponent.
  destruct (encode (query args)) as [e|]; [|reflexivity].
  apply (fetch_then_log _ Page.handleResponse), page_handleResponse_log.
Qed.

Lemma page_addImage_log (args : AddArgs) (log : list Request) :
  snd (Page.addImage net args log)
  = log ++ [{| url := Page.API_BASE ++ js "/add_image"; method := POST;
               body := Some [(js "image", FormFile (file args));
                             (js "description", FormString (add_description args))] |}].
Proof. apply (fetch_then_log _ Page.handleResponse), page_handleResponse_log. Qed.

Lemma page_downloadImage_log (imageId : number) (log : list Request) :
  snd (Page.downloadImage net imageId log)
  = log ++ [{| url := Page.API_BASE ++ js "/download_image/" ++ Number_toString imageId;
               method := GET; body := None |}].
Proof.
  unfold Page.downloadImage. apply fetch_then_log.
  intros a l. destruct (ok a); reflexivity.
Qed.

Lemma page_api_calls_only :
  calls_only Page.API_BASE ListImages (Page.fetchImages net)
  /\ (forall args, calls_only Page.API_BASE Search (Page.searchImages net args))
  /\ (forall args, calls_only Page.API_BASE AddImage (Page.addImage net args))
  /\ (forall imageId, calls_only Page.API_BASE DownloadImage (Page.downloadImage net imageId)).
Proof.
  repeat split; intros; intros log.
  - rewrite page_fetchImages_log. eexists; split; [reflexivity|].
    split; [simpl; lia|]. repeat constructor.
  - rewrite page_searchImages_log. destruct (encode (query args)) as [e|].
    + eexists; split; [reflexivity|]. split; [simpl; lia|].
      constructor; [|constructor]. unfold targets. cbn [url].
      rewrite endpoint_search. reflexivity.
    + exists []. rewrite app_nil_r. repeat split; [simpl; lia | constructor].
  - rewrite page_addImage_log. eexists; split; [reflexivity|].
    split; [simpl; lia|]. repeat constructor.
  - rewrite page_downloadImage_log. eexists; split; [reflexivity|].
    split; [simpl; lia|]. constructor; [|constructor]. unfold targets. cbn [url].
    rewrite endpoint_download_image. reflexivity.
Qed.

(** The API layer is the same text in both files. *)
Lemma api_layers_agree :
  Page.API_BASE = Part000.API_BASE
  /\ Page.handleResponse = Part000.handleResponse
  /\ Page.fetchImages = Part000.fetchImages
  /\ Page.searchImages = Part000.searchImages
  /\ Page.addImage = Part000.addImage
  /\ Page.downloadImage = Part000.downloadImage.
Proof. repeat split. Qed.

End ApiLayer.

Section ApiContract.


(** C2, as stated, fails for a query text that cannot be URL-encoded: a
    high surrogate without its partner makes [encodeURIComponent] throw
    [URIError], and [searchImages] ends there, in both files: no request
    is sent, so no [top_k] either. *)
Lemma searchImages_lone_surrogate_sends_nothing :
  Page.searchImages demo_server {| query := [0xD83D%N]; topK := None |} []
  = (Throw (mkError URIError (js "URI malformed")), [])
  /\ Part000.searchImages demo_server {| query := [0xD83D%N]; topK := None |} []
     = (Throw (mkError URIError (js "URI malformed")), [])
  /\ ~ (forall q : jsstring,
          exists r, snd (Page.searchImages demo_server {| query := q; topK := None |} []) = [r]).
Proof.
  split; [reflexivity|]. split; [reflexivity|].
  intros H. destruct (H [0xD83D%N]) as [r Hr]. discriminate Hr.
Qed.

(** C2, amended.  When the caller gives no [topK] and the query text can
    be URL-encoded (it holds no surrogate that lacks its partner),
    [searchImages] sends one GET request to [search] whose query string
    has exactly the parameters [query], holding the URL-encoded query
    text, and [top_k], holding the default [5].  For any other query text
    [encodeURIComponent] throws [URIError] and nothing is sent. *)
Theorem searchImages_default_top_k (net : Network) (q : jsstring) (log : list Request) :
  if well_formed q then
    exists e,
      encodeURIComponent q = Normal e
      /\ (exists r tail,
            snd (Page.searchImages net {| query := q; topK := None |} log) = log ++ [r]
            /\ method r = GET /\ body r = None
            /\ endpoint_of Page.API_BASE (url r) = Some (Search, tail)
            /\ query_params tail = Some [(js "query", e); (js "top_k", js "5")])
      /\ (exists r tail,
            snd (Part000.searchImages net {| query := q; topK := None |} log) = log ++ [r]
            /\ method r = GET /\ body r = None
            /\ endpoint_of Part000.API_BASE (url r) = Some (Search, tail)
            /\ query_params tail = Some [(js "query", e); (js "top_k", js "5")])
  else
    Page.searchImages net {| query := q; topK := None |} log
    = (Throw (mkError URIError (js "URI malformed")), log)
    /\ Part000.searchImages net {| query := q; topK := None |} log
       = (Throw (mkError URIError (js "URI malformed")), log).
Proof.
  destruct (well_formed q) eqn:Hwf.
  - destruct (encode_total q Hwf) as [e Hq]. exists e.
    split; [unfold encodeURIComponent; rewrite Hq; reflexivity|].
    assert (H : exists r tail,
       snd (Page.searchImages net {| query := q; topK := None |} log) = log ++ [r]
       /\ method r = GET /\ body r = None
       /\ endpoint_of Page.API_BASE (url r) = Some (Search, tail)
       /\ query_params tail = Some [(js "query", e); (js "top_k", js "5")]).
    { rewrite page_searchImages_log. cbn [query topK]. rewrite Hq.
      eexists _, _. split; [reflexivity|]. cbn [method body url default].
      split; [reflexivity|]. split; [reflexivity|]. split.
      - apply endpoint_search.
      - apply query_params_search, (encode_safe q), Hq. }
    split; exact H.
  - assert (H : Page.searchImages net {| query := q; topK := None |} log
                = (Throw (mkError URIError (js "URI malformed")), log)).
    { unfold Page.searchImages, encodeURIComponent. cbn [query].
      rewrite (encode_malformed q Hwf). reflexivity. }
    split; exact H.
Qed.

Lemma searchImages_default_top_k_witness :
  exists e,
    encodeURIComponent (js "red car") = Normal e
    /\ (exists r tail,
          snd (Page.searchImages demo_server {| query := js "red car"; topK := None |} []) = [r]
          /\ method r = GET /\ body r = None
          /\ endpoint_of Page.API_BASE (url r) = Some (Search, tail)
          /\ query_params tail = Some [(js "query", e); (js "top_k", js "5")])
    /\ (exists r tail,
          snd (Part000.searchImages demo_server {| query := js "red car"; topK := None |} []) = [r]
          /\ method r = GET /\ body r = None
          /\ endpoint_of Part000.API_BASE (url r) = Some (Search, tail)
          /\ query_params tail = Some [(js "query", e); (js "top_k", js "5")]).
Proof.
  exact (searchImages_default_top_k demo_server (js "red car") []).
Defined.

(** What is sent for [red car]. *)
Example searchImages_red_car :
  snd (Page.searchImages demo_server {| query := js "red car"; topK := None |} [])
  = [{| url := js "http://localhost:5000/search?query=red%20car&top_k=5";
        method := GET; body := None |}].
Proof. reflexivity. Qed.

(** A [topK] the caller gives is sent as it is. *)
Lemma searchImages_given_top_k (net : Network) (q e : jsstring) (k : number) (log : list Request) :
  encode q = Some e ->
  snd (Page.searchImages net {| query := q; topK := Some k |} log)
  = log ++ [{| url := Page.API_BASE ++ js "/search?query=" ++ e ++ js "&top_k=" ++ Number_toString k;
               method := GET; body := None |}].
Proof. intros He. rewrite page_searchImages_log. cbn [query topK]. rewrite He. reflexivity. Qed.

(** A query text with a surrogate that lacks its partner makes
    [encodeURIComponent] throw: the call fails before anything is sent. *)
Lemma searchImages_malformed_query (net : Network) (q : jsstring) (k : option number)
    (log : list Request) :
  well_formed q = false ->
  Page.searchImages net {| query := q; topK := k |} log
  = (Throw (mkError URIError (js "URI malformed")), log).
Proof.
  intros Hq. unfold Page.searchImages, encodeURIComponent. cbn [query].
  rewrite (encode_malformed q Hq). reflexivity.
Qed.

(** C3. [addImage] sends one POST request to [add_image] whose body is a
    form with the file under [image] and the description, empty or not,
    under [description]; when the server answers with an image record,
    with or without a description, that record is the result. *)
Theorem addImage_posts_form (net : Network) (f : File) (d : jsstring) (log : list Request) :
  (exists r fd,
     snd (Page.addImage net {| file := f; add_description := d |} log) = log ++ [r]
     /\ method r = POST /\ targets Page.API_BASE AddImage r
     /\ body r = Some fd /\ length fd = 2
     /\ FormData_get (js "image") fd = Some (FormFile f)
     /\ FormData_get (js "description") fd = Some (FormString d)
     /\ forall resp (i : Image),
          net log r = Normal resp -> ok resp = true -> json resp = Normal (Image_to_JSON i) ->
          fst (Page.addImage net {| file := f; add_description := d |} log)
          = Normal (Image_to_JSON i))
  /\
  (exists r fd,
     snd (Part000.addImage net {| file := f; add_description := d |} log) = log ++ [r]
     /\ method r = POST /\ targets Part000.API_BASE AddImage r
     /\ body r = Some fd /\ length fd = 2
     /\ FormData_get (js "image") fd = Some (FormFile f)
     /\ FormData_get (js "description") fd = Some (FormString d)
     /\ forall resp (i : Image),
          net log r = Normal resp -> ok resp = true -> json resp = Normal (Image_to_JSON i) ->
          fst (Part000.addImage net {| file := f; add_description := d |} log)
          = Normal (Image_to_JSON i)).
Proof.
  assert (H : exists r fd,
     snd (Page.addImage net {| file := f; add_description := d |} log) = log ++ [r]
     /\ method r = POST /\ targets Page.API_BASE AddImage r
     /\ body r = Some fd /\ length fd = 2
     /\ FormData_get (js "image") fd = Some (FormFile f)
     /\ FormData_get (js "description") fd = Some (FormString d)
     /\ forall resp (i : Image),
          net log r = Normal resp -> ok resp = true -> json resp = Normal (Image_to_JSON i) ->
          fst (Page.addImage net {| file := f; add_description := d |} log)
          = Normal (Image_to_JSON i)).
  { rewrite page_addImage_log. eexists _, _. split; [reflexivity|].
    cbn [method body file add_description].
    split; [reflexivity|]. split; [reflexivity|]. split; [reflexivity|].
    split; [reflexivity|]. split; [reflexivity|]. split; [reflexivity|].
    intros resp i Hnet Hok Hjson.
    unfold Page.addImage. rewrite fetch_then_result.
    match goal with
    | |- context [net log ?r] =>
      replace (net log r) with (Normal resp) by (symmetry; exact Hnet)
    end.
    rewrite page_handleResponse_result, Hok. exact Hjson. }
  split; exact H.
Qed.

Lemma addImage_posts_form_witness :
  fst (Page.addImage demo_server {| file := demo_file; add_description := [] |} [])
  = Normal (JObject [(js "id", JNumber 1%Q); (js "filename", JString (js "cat.png"))]).
Proof.
  destruct (proj1 (addImage_posts_form demo_server demo_file [] []))
    as (r & fd & Hlog & _ & _ & _ & _ & _ & _ & Hres).
  injection Hlog as <-.
  exact (Hres _ demo_image eq_refl eq_refl eq_refl).
Defined.

(** C4, as stated, fails for an id that a JavaScript number does not
    hold: the image whose id is 2^53 + 1, one of the 64-bit ids of the
    specification, reaches the client as the number 2^53, and
    [downloadImage] of it fetches [download_image/9007199254740992], the
    address of the image 2^53. *)
Lemma downloadImage_of_a_rounded_id :
  JSON_integer (2 ^ 53 + 1)%Z = Some (2 ^ 53)%Z
  /\ snd (Page.downloadImage demo_server (2 ^ 53)%Z [])
     = [{| url := js "http://localhost:5000/download_image/9007199254740992";
           method := GET; body := None |}]
  /\ snd (Part000.downloadImage demo_server (2 ^ 53)%Z [])
     = [{| url := js "http://localhost:5000/download_image/9007199254740992";
           method := GET; body := None |}]
  /\ decimal_value (js "9007199254740992") <> Some (2 ^ 53 + 1)%Z.
Proof.
  split; [vm_compute; reflexivity|]. split; [vm_compute; reflexivity|].
  split; [vm_compute; reflexivity|]. vm_compute. discriminate.
Qed.

(** C4, amended.  For an id that a JavaScript number holds exactly,
    [downloadImage] sends one GET request to [download_image/<id>], the
    id written in decimal; an OK response gives its body as a blob,
    whatever the body would parse to; any other response throws an
    [Error] with the response text, or with ['Failed to download image']
    when the text is empty. *)
Theorem downloadImage_blob_or_error (net : Network) (imageId : number) (log : list Request) :
  exact_integer imageId ->
  (exists r digits,
     snd (Page.downloadImage net imageId log) = log ++ [r]
     /\ method r = GET /\ body r = None
     /\ url r = Page.API_BASE ++ js "/download_image/" ++ digits
     /\ decimal_value digits = Some imageId
     /\ endpoint_of Page.API_BASE (url r) = Some (DownloadImage, js "/" ++ digits)
     /\ forall resp, net log r = Normal resp ->
          fst (Page.downloadImage net imageId log) =
          if ok resp then Normal (blob resp)
          else Throw (mkError Error
                 (if decide (text resp = []) then js "Failed to download image" else text resp)))
  /\
  (exists r digits,
     snd (Part000.downloadImage net imageId log) = log ++ [r]
     /\ method r = GET /\ body r = None
     /\ url r = Part000.API_BASE ++ js "/download_image/" ++ digits
     /\ decimal_value digits = Some imageId
     /\ endpoint_of Part000.API_BASE (url r) = Some (DownloadImage, js "/" ++ digits)
     /\ forall resp, net log r = Normal resp ->
          fst (Part000.downloadImage net imageId log) =
          if ok resp then Normal (blob resp)
          else Throw (mkError Error
                 (if decide (text resp = []) then js "Failed to download image" else text resp))).
Proof.
  intros _.
  assert (H : exists r digits,
     snd (Page.downloadImage net imageId log) = log ++ [r]
     /\ method r = GET /\ body r = None
     /\ url r = Page.API_BASE ++ js "/download_image/" ++ digits
     /\ decimal_value digits = Some imageId
     /\ endpoint_of Page.API_BASE (url r) = Some (DownloadImage, js "/" ++ digits)
     /\ forall resp, net log r = Normal resp ->
          fst (Page.downloadImage net imageId log) =
          if ok resp then Normal (blob resp)
          else Throw (mkError Error
                 (if decide (text resp = []) then js "Failed to download image" else text resp))).
  { rewrite page_downloadImage_log. eexists _, _. split; [reflexivity|].
    cbn [method body url]. split; [reflexivity|]. split; [reflexivity|].
    split; [reflexivity|]. split; [apply decimal_value_toString|].
    split; [apply endpoint_download_image|].
    intros resp Hnet. unfold Page.downloadImage. rewrite fetch_then_result, Hnet.
    unfold or_else. destruct (ok resp); [reflexivity|]. simpl.
    destruct (text resp); reflexivity. }
  split; exact H.
Qed.

Lemma downloadImage_blob_or_error_witness :
  snd (Page.downloadImage blob_server 7%Z [])
  = [{| url := js "http://localhost:5000/download_image/7"; method := GET; body := None |}]
  /\ fst (Page.downloadImage blob_server 7%Z []) = Normal (file_bytes demo_file)
  /\ fst (Page.downloadImage demo_server 7%Z [])
     = Throw (mkError Error (js "Image not found"))
  /\ fst (Page.downloadImage silent_server 7%Z [])
     = Throw (mkError Error (js "Failed to download image")).
Proof.
  assert (H7 : exact_integer 7%Z) by (unfold exact_integer; lia).
  split; [|split; [|split]].
  - destruct (proj1 (downloadImage_blob_or_error blob_server 7%Z [] H7))
      as (r & digits & Hlog & _). injection Hlog as <-. reflexivity.
  - destruct (proj1 (downloadImage_blob_or_error blob_server 7%Z [] H7))
      as (r & digits & Hlog & _ & _ & _ & _ & _ & Hres).
    exact (Hres _ eq_refl).
  - destruct (proj1 (downloadImage_blob_or_error demo_server 7%Z [] H7))
      as (r & digits & Hlog & _ & _ & _ & _ & _ & Hres).
    injection Hlog as <-. exact (Hres _ eq_refl).
  - destruct (proj1 (downloadImage_blob_or_error silent_server 7%Z [] H7))
      as (r & digits & Hlog & _ & _ & _ & _ & _ & Hres).
    exact (Hres _ eq_refl).
Defined.

(** C8. The API layers of the two files are extensionally equal: on every
    input, [handleResponse], [fetchImages], [searchImages], [addImage] and
    [downloadImage] of one file send the requests and give the results of
    the other. *)
Theorem api_layers_equivalent (net : Network) (log : list Request) :
  (forall response, Page.handleResponse response log = Part000.handleResponse response log)
  /\ Page.fetchImages net log = Part000.fetchImages net log
  /\ (forall args, Page.searchImages net args log = Part000.searchImages net args log)
  /\ (forall args, Page.addImage net args log = Part000.addImage net args log)
  /\ (forall imageId, Page.downloadImage net imageId log = Part000.downloadImage net imageId log).
Proof.
  destruct api_layers_agree as (_ & H1 & H2 & H3 & H4 & H5).
  rewrite H1, H2, H3, H4, H5. repeat split.
Qed.

End ApiContract.

(** ** The component *)

Section Component.

Variable net : Network.

(** Retrying a function that sends [r] once per run sends [r] between one
    and [retries + 1] times. *)
Lemma retryer_log {A} (fn : Async A) (r : Request) :
  (forall log, snd (fn log) = log ++ [r]) ->
  forall retries log, exists n,
    n <= retries /\ snd (retryer retries fn log) = log ++ repeat r (S n).
Proof.
  intros Hfn. induction retries as [|k IH]; intros log.
  - exists 0. split; [lia|]. simpl. unfold try_catch.
    specialize (Hfn log). destruct (fn log) as [[a|e] log']; simpl in *; exact Hfn.
  - simpl. unfold try_catch. pose proof (Hfn log) as Hlog.
    destruct (fn log) as [[a|e] log']; simpl in Hlog; subst log'.
    + exists 0. split; [lia | reflexivity].
    + destruct (IH (log ++ [r])) as (n & Hn & Hrun). exists (S n). split; [lia|].
      fold (@retryer (list Request) A). rewrite Hrun, <- app_assoc. reflexivity.
Qed.

(** A function that succeeds is run once. *)
Lemma retryer_success {S A} (fn : M S A) (retries : nat) (s s' : S) (a : A) :
  fn s = (Normal a, s') -> retryer retries fn s = (Normal a, s').
Proof. intros H. destruct retries; simpl; unfold try_catch; rewrite H; reflexivity. Qed.

(** *** The search query and the Search button *)

Lemma page_search_disabled_when_empty (s : AppState) :
  searchQueryText s = [] ->
  enabled (Page.searchResultsQuery net s) = false
  /\ fetchOptionally (Page.searchResultsQuery net s) s = (Normal tt, s).
Proof.
  intros H. unfold fetchOptionally, Page.searchResultsQuery. cbn [enabled].
  rewrite H. split; reflexivity.
Qed.

(** Clearing the search box sends nothing. *)
Lemma page_no_search_on_clearing (s : AppState) :
  requests (Page.step net s (ChangeSearchText [])) = requests s.
Proof. reflexivity. Qed.

(** Mounting the page while the text is empty fetches the image list and
    nothing else. *)
Lemma page_no_search_on_mount (s : AppState) :
  searchQueryText s = [] ->
  exists n, n <= query_retries
    /\ requests (Page.step net s Mount) = requests s ++ repeat list_images_request (S n).
Proof.
  intros H. unfold Page.step, Page.handle.
  unfold mbind, M_bind, bind, get. cbn [fst snd].
  unfold fetchOptionally at 1. cbn [enabled Page.imagesQuery].
  unfold fetchQuery, liftAsync. cbn [queryFn queryKey].
  destruct (retryer_log (Page.fetchImages net) list_images_request)
    with (retries := query_retries) (log := requests s) as (n & Hn & Hlog).
  { intros log. apply page_fetchImages_log. }
  exists n. split; [exact Hn|].
  destruct (retryer query_retries _ (requests s)) as [r log'].
  simpl in Hlog. subst log'.
  unfold fetchOptionally, Page.searchResultsQuery. cbn [enabled searchQueryText].
  rewrite H. reflexivity.
Qed.

(** Invalidation does not fetch the disabled search query either. *)
Lemma page_invalidation_skips_disabled_search (s : AppState) (key : QueryKey) :
  searchQueryText s = [] ->
  List.filter (fun o => enabled o && partialMatchKey (queryKey o) key) (Page.observers net s)
  = List.filter (fun o => enabled o && partialMatchKey (queryKey o) key) [Page.imagesQuery net].
Proof.
  intros H. unfold Page.observers. simpl. rewrite H. simpl.
  destruct (partialMatchKey [js "images"] key); reflexivity.
Qed.

(** The Search button refetches whatever the text is: with an empty text
    it sends a search for the empty query. *)
Lemma page_click_search_when_empty (s : AppState) :
  searchQueryText s = [] ->
  exists n, n <= query_retries
    /\ requests (Page.step net s ClickSearch) = requests s ++ repeat empty_search_request (S n).
Proof.
  intros H. unfold Page.step, Page.handle, refetch, fetchQuery, liftAsync.
  unfold mbind, M_bind, bind, get. cbn [fst snd].
  destruct (retryer_log (queryFn (Page.searchResultsQuery net s)) empty_search_request)
    with (retries := query_retries) (log := requests s) as (n & Hn & Hlog).
  { intros log. unfold Page.searchResultsQuery. cbn [queryFn]. rewrite H.
    rewrite page_searchImages_log. reflexivity. }
  exists n. split; [exact Hn|].
  destruct (retryer query_retries _ (requests s)) as [r log'] eqn:E.
  simpl in Hlog. subst log'. reflexivity.
Qed.

(** *** Uploading *)

(** In [page.tsx] the [toast] object has no member: the call that should
    report the missing file throws, and nothing is shown. *)
Lemma page_handleUpload_without_file (s : AppState) :
  uploadFile s = None ->
  Page.handleUpload net s = (Throw no_toast_error, s).
Proof.
  intros H. unfold Page.handleUpload, mbind, M_bind, bind, get. rewrite H. reflexivity.
Qed.

(** With sonner's [toast], as in [part_000], the missing file is reported
    and nothing else changes: no request, no mutation. *)
Lemma part000_handleUpload_without_file (s : AppState) :
  uploadFile s = None ->
  Part000.handleUpload net s
  = (Normal tt, set_toasts (toasts s ++ [(ToastError, js "Please select a file to upload")]) s).
Proof.
  intros H. unfold Part000.handleUpload, mbind, M_bind, bind, get. rewrite H. reflexivity.
Qed.

(** In [page.tsx], [onSuccess] of the add-image mutation throws at its
    first statement: no query is invalidated, no field reset. *)
Lemma page_addImage_onSuccess_throws (d : JSON) (v : AddArgs) (s : AppState) :
  Page.addImage_onSuccess net d v s = (Throw no_toast_success, s).
Proof. reflexivity. Qed.

Lemma page_addImage_onError_throws (e : JsError) (s : AppState) :
  Page.addImage_onError e s = (Throw no_toast_error, s).
Proof. reflexivity. Qed.

(** So in [page.tsx] an upload, whatever the server answers, leaves the
    cache, the form fields and the notifications as they were. *)
Lemma page_upload_changes_only_the_log (s : AppState) :
  let s' := Page.step net s ClickAddImage in
  cache s' = cache s /\ uploadFile s' = uploadFile s
  /\ uploadDescription s' = uploadDescription s /\ toasts s' = toasts s
  /\ searchQueryText s' = searchQueryText s.
Proof.
  unfold Page.step, Page.handle, Page.handleUpload, mbind, M_bind, bind, get. cbn [fst snd].
  destruct (uploadFile s) as [f|] eqn:Hf.
  - unfold Page.addImageMutation, mutate, swallow, try_catch, mbind, M_bind, bind, liftAsync.
    destruct (Page.addImage net _ (requests s)) as [[d|e] log']; simpl; auto.
  - simpl. auto.
Qed.

Lemma mark_invalidated_lookup (key k : QueryKey) (c : gmap QueryKey Query) :
  mark_invalidated key c !! k
  = (fun q => if partialMatchKey k key then set_invalidated q else q) <$> c !! k.
Proof.
  unfold mark_invalidated. rewrite map_lookup_imap.
  destruct (c !! k); reflexivity.
Qed.

(** Keys that the filter is no prefix of keep their entries. *)
Lemma mark_invalidated_frame (key k : QueryKey) (c : gmap QueryKey Query) :
  partialMatchKey k key = false -> mark_invalidated key c !! k = c !! k.
Proof.
  intros H. rewrite mark_invalidated_lookup, H. destruct (c !! k); reflexivity.
Qed.

Lemma mark_invalidated_hit (key k : QueryKey) (c : gmap QueryKey Query) (q : Query) :
  partialMatchKey k key = true -> c !! k = Some q ->
  mark_invalidated key c !! k = Some (set_invalidated q).
Proof. intros H Hq. rewrite mark_invalidated_lookup, H, Hq. reflexivity. Qed.

(** The filter [['images']] matches the image list and no search key. *)
Lemma images_filter_matches :
  partialMatchKey [js "images"] [js "images"] = true
  /\ forall t, partialMatchKey [js "search"; t] [js "images"] = false.
Proof. split; reflexivity. Qed.

Lemma part000_observers_of_images (s : AppState) :
  List.filter (fun o => enabled o && partialMatchKey (queryKey o) [js "images"])
    (Part000.observers net s)
  = [Part000.imagesQuery net].
Proof.
  unfold Part000.observers. simpl.
  destruct (truthy (searchQueryText s)); reflexivity.
Qed.

Lemma part000_fetch_images (s : AppState) :
  exists n r, n <= query_retries
    /\ fetchQuery (Part000.imagesQuery net) s
       = (Normal tt,
          set_cache (<[[js "images"] := settle (cache s !! [js "images"]) r]> (cache s))
            (set_requests (requests s ++ repeat list_images_request (S n)) s)).
Proof.
  unfold fetchQuery, liftAsync. cbn [queryFn queryKey Part000.imagesQuery].
  destruct (retryer_log (Part000.fetchImages net) list_images_request)
    with (retries := query_retries) (log := requests s) as (n & Hn & Hlog).
  { intros log. apply page_fetchImages_log. }
  destruct (retryer query_retries _ (requests s)) as [r log'].
  simpl in Hlog. subst log'. exists n, r. split; [exact Hn | reflexivity].
Qed.

(** In [part_000], [onSuccess] of the add-image mutation shows the
    notification, marks the queries under [['images']] and fetches the
    image list again, and clears the file and the description. *)
Lemma part000_addImage_onSuccess (d : JSON) (v : AddArgs) (s : AppState) :
  exists n q, n <= query_retries
    /\ Part000.addImage_onSuccess net d v s
       = (Normal tt,
          {| searchQueryText := searchQueryText s;
             uploadFile := None;
             uploadDescription := [];
             cache := <[[js "images"] := q]> (mark_invalidated [js "images"] (cache s));
             toasts := toasts s ++ [(ToastSuccess, js "Image added successfully!")];
             downloads := downloads s;
             requests := requests s ++ repeat list_images_request (S n) |}).
Proof.
  unfold Part000.addImage_onSuccess, invalidateQueries.
  unfold mbind, M_bind, bind, get, modify, call_member, Part000.toast, sonner_toast.
  cbn [toast_success sonner_show modify].
  rewrite part000_observers_of_images. cbn [map run_all].
  unfold mbind, M_bind, bind.
  match goal with
  | |- context [fetchQuery _ ?s1] =>
    destruct (part000_fetch_images s1) as (n & r & Hn & ->)
  end.
  eexists n, _. split; [exact Hn|]. reflexivity.
Qed.

(** Cached search results are not touched by it. *)
Lemma part000_addImage_onSuccess_frame (d : JSON) (v : AddArgs) (s : AppState) (k : QueryKey) :
  partialMatchKey k [js "images"] = false ->
  cache (snd (Part000.addImage_onSuccess net d v s)) !! k = cache s !! k.
Proof.
  intros Hk. destruct (part000_addImage_onSuccess d v s) as (n & q & _ & ->).
  cbn [snd cache]. rewrite lookup_insert_ne.
  - apply mark_invalidated_frame, Hk.
  - intros <-. discriminate.
Qed.

End Component.

(** ** Every request of the component is one of the four operations *)

Section ComponentFootprint.

Variable net : Network.

Lemma sends_ret {S A} (log : S -> list Request) (a : A) : sends_on_contract log (ret a).
Proof. intros s. exists []. split; [symmetry; apply app_nil_r | constructor]. Qed.

Lemma sends_throw {S A} (log : S -> list Request) (e : JsError) :
  sends_on_contract log (@throw S A e).
Proof. intros s. exists []. split; [symmetry; apply app_nil_r | constructor]. Qed.

Lemma sends_get {S} (log : S -> list Request) : sends_on_contract log (@get S).
Proof. intros s. exists []. split; [symmetry; apply app_nil_r | constructor]. Qed.

Lemma sends_modify {S} (log : S -> list Request) (f : S -> S) :
  (forall s, log (f s) = log s) -> sends_on_contract log (modify f).
Proof.
  intros Hf s. exists []. simpl. rewrite Hf. split; [symmetry; apply app_nil_r | constructor].
Qed.

Lemma sends_bind {S A B} (log : S -> list Request) (m : M S A) (k : A -> M S B) :
  sends_on_contract log m -> (forall a, sends_on_contract log (k a)) ->
  sends_on_contract log (m ≫= k).
Proof.
  intros Hm Hk s. unfold mbind, M_bind, bind.
  destruct (Hm s) as (new1 & H1 & F1). destruct (m s) as [[a|e] s1]; simpl in H1.
  - destruct (Hk a s1) as (new2 & H2 & F2). exists (new1 ++ new2).
    rewrite H2, H1, app_assoc. split; [reflexivity | apply Forall_app_2; assumption].
  - exists new1. split; assumption.
Qed.

Lemma sends_try_catch {S A} (log : S -> list Request) (m : M S A) (h : JsError -> M S A) :
  sends_on_contract log m -> (forall e, sends_on_contract log (h e)) ->
  sends_on_contract log (try_catch m h).
Proof.
  intros Hm Hh s. unfold try_catch.
  destruct (Hm s) as (new1 & H1 & F1). destruct (m s) as [[a|e] s1]; simpl in H1.
  - exists new1. split; assumption.
  - destruct (Hh e s1) as (new2 & H2 & F2). exists (new1 ++ new2).
    rewrite H2, H1, app_assoc. split; [reflexivity | apply Forall_app_2; assumption].
Qed.

Lemma sends_retryer {S A} (log : S -> list Request) (fn : M S A) (retries : nat) :
  sends_on_contract log fn -> sends_on_contract log (retryer retries fn).
Proof.
  intros Hfn. induction retries as [|n IH]; simpl.
  - apply sends_try_catch; [exact Hfn | intros e; apply sends_throw].
  - apply sends_try_catch; [exact Hfn | intros e; exact IH].
Qed.

Lemma sends_liftAsync {A} (m : Async A) :
  sends_on_contract whole m -> sends_on_contract requests (liftAsync m).
Proof.
  intros Hm s. unfold liftAsync. destruct (Hm (requests s)) as (new & H & F).
  destruct (m (requests s)) as [r log']. simpl in *. exists new. split; assumption.
Qed.

Lemma sends_fetchQuery (o : Observer) :
  sends_on_contract whole (queryFn o) -> sends_on_contract requests (fetchQuery o).
Proof.
  intros Ho s. unfold fetchQuery.
  destruct (sends_liftAsync _ (sends_retryer whole _ query_retries Ho) s) as (new & H & F).
  destruct (liftAsync _ s) as [r s']. simpl in *. exists new. split; assumption.
Qed.

Lemma sends_run_all (ms : list (M AppState unit)) :
  Forall (sends_on_contract requests) ms -> sends_on_contract requests (run_all ms).
Proof.
  induction 1 as [|m ms Hm _ IH]; simpl; [apply sends_ret|].
  apply sends_bind; [exact Hm | intros _; exact IH].
Qed.

Lemma sends_invalidateQueries (observers : list Observer) (key : QueryKey) :
  Forall (fun o => sends_on_contract whole (queryFn o)) observers ->
  sends_on_contract requests (invalidateQueries observers key).
Proof.
  intros Hobs. unfold invalidateQueries.
  apply sends_bind; [apply sends_modify; reflexivity|]. intros _.
  apply sends_run_all. apply Forall_fmap.
  induction Hobs as [|o os Ho _ IH]; simpl; [constructor|].
  destruct (enabled o && partialMatchKey (queryKey o) key); [|exact IH].
  constructor; [apply sends_fetchQuery, Ho | exact IH].
Qed.

Lemma sends_call_member (name : string) (member : option (jsstring -> M AppState unit))
    (arg : jsstring) :
  (forall f, member = Some f -> sends_on_contract requests (f arg)) ->
  sends_on_contract requests (call_member name member arg).
Proof.
  intros H. unfold call_member. destruct member as [f|]; [apply H; reflexivity | apply sends_throw].
Qed.

Lemma sends_sonner (k : ToastKind) (msg : jsstring) :
  sends_on_contract requests (sonner_show k msg).
Proof. apply sends_modify. reflexivity. Qed.

Lemma sends_mutate {V D} (fn : V -> Async D) (onSuccess : D -> V -> M AppState unit)
    (onError : JsError -> M AppState unit) (v : V) :
  sends_on_contract whole (fn v) ->
  (forall d, sends_on_contract requests (onSuccess d v)) ->
  (forall e, sends_on_contract requests (onError e)) ->
  sends_on_contract requests (mutate fn onSuccess onError v).
Proof.
  intros Hfn Hs He. unfold mutate, swallow.
  apply sends_try_catch; [|intros e; apply sends_ret].
  apply sends_try_catch.
  - apply sends_bind; [apply sends_liftAsync, Hfn | exact Hs].
  - intros e. apply sends_bind; [apply He | intros _; apply sends_throw].
Qed.

Lemma calls_only_sends {A} (e : Endpoint) (m : Async A) :
  calls_only Page.API_BASE e m -> sends_on_contract whole m.
Proof.
  intros H log. destruct (H log) as (new & Hlog & _ & F). exists new. split; [exact Hlog|].
  eapply Forall_impl; [exact F|]. intros r Hr. exists e. split; [|exact Hr].
  destruct e; unfold all_endpoints; set_solver.
Qed.

Lemma api_sends :
  sends_on_contract whole (Page.fetchImages net)
  /\ (forall args, sends_on_contract whole (Page.searchImages net args))
  /\ (forall args, sends_on_contract whole (Page.addImage net args))
  /\ (forall imageId, sends_on_contract whole (Page.downloadImage net imageId)).
Proof.
  destruct (page_api_calls_only net) as (H1 & H2 & H3 & H4).
  repeat split; intros; eapply calls_only_sends; eauto.
Qed.

Ltac footprint :=
  repeat first
    [ apply (proj1 api_sends) | apply (proj1 (proj2 api_sends))
    | apply (proj1 (proj2 (proj2 api_sends))) | apply (proj2 (proj2 (proj2 api_sends)))
    | apply sends_fetchQuery
    | apply sends_invalidateQueries;
      unfold Page.observers, Part000.observers; repeat constructor;
      cbn [queryFn Page.imagesQuery Page.searchResultsQuery
           Part000.imagesQuery Part000.searchResultsQuery]
    | apply sends_sonner
    | apply sends_call_member; intros ? [= <-]
    | apply sends_ret | apply sends_throw | apply sends_get
    | apply sends_modify; reflexivity
    | match goal with
      | |- sends_on_contract _ (if ?b then _ else _) => destruct b
      | |- sends_on_contract _ (match ?x with Some _ => _ | None => _ end) => destruct x
      end
    | apply sends_bind; [|intros ?] ].

Lemma page_handle_sends (e : Event) : sends_on_contract requests (Page.handle net e).
Proof.
  destruct e; unfold Page.handle, fetchOptionally, refetch, Page.handleFileChange,
    Page.handleUpload, Page.downloadImageMutation, Page.addImageMutation, Page.toast;
    footprint.
  - apply sends_mutate; intros;
      unfold Page.addImage_onSuccess, Page.addImage_onError, Page.toast; footprint.
  - apply sends_mutate; intros;
      unfold Page.download_onSuccess, Page.download_onError, Page.toast; footprint.
Qed.

Lemma part000_handle_sends (e : Event) : sends_on_contract requests (Part000.handle net e).
Proof.
  destruct e; unfold Part000.handle, fetchOptionally, refetch, Part000.handleFileChange,
    Part000.handleUpload, Part000.downloadImageMutation, Part000.addImageMutation, Part000.toast, sonner_toast;
    footprint.
  - apply sends_mutate; intros;
      unfold Part000.addImage_onSuccess, Part000.addImage_onError, Part000.toast, sonner_toast; footprint.
  - apply sends_mutate; intros;
      unfold Part000.download_onSuccess, Part000.download_onError, Part000.toast, sonner_toast; footprint.
Qed.

Lemma page_run_sends (events : list Event) (s : AppState) :
  Forall (on_contract Page.API_BASE) (requests s) ->
  Forall (on_contract Page.API_BASE) (requests (Page.run net events s)).
Proof.
  revert s. induction events as [|e es IH]; intros s Hs; [exact Hs|].
  change (Page.run net (e :: es) s) with (Page.run net es (Page.step net s e)).
  apply IH. unfold Page.step. destruct (page_handle_sends e s) as (new & -> & F).
  apply Forall_app_2; assumption.
Qed.

Lemma part000_run_sends (events : list Event) (s : AppState) :
  Forall (on_contract Part000.API_BASE) (requests s) ->
  Forall (on_contract Part000.API_BASE) (requests (Part000.run net events s)).
Proof.
  revert s. induction events as [|e es IH]; intros s Hs; [exact Hs|].
  change (Part000.run net (e :: es) s) with (Part000.run net es (Part000.step net s e)).
  apply IH. unfold Part000.step. destruct (part000_handle_sends e s) as (new & -> & F).
  apply Forall_app_2; assumption.
Qed.

(** Whatever the user does and whatever the server answers, every request
    the component has sent addresses [list_images], [search], [add_image]
    or [download_image]. *)
Theorem component_requests_on_contract (events : list Event) :
  Forall (on_contract Page.API_BASE) (requests (Page.run net events initial))
  /\ Forall (on_contract Part000.API_BASE) (requests (Part000.run net events initial)).
Proof.
  split; [apply page_run_sends | apply part000_run_sends]; constructor.
Qed.

End ComponentFootprint.

Section ComponentBehaviour.

(** C7. A successful [add_image] mutation should invalidate the
    [['images']] query and clear the upload fields.  In [page.tsx] it does
    neither: after the server has accepted the upload, the cache, the
    chosen file and the description are as before and the image list is
    not fetched again.  In [part_000] the same session ends with the
    fields cleared, the image list fetched again and the cached search
    left alone. *)
Theorem page_upload_success_invalidates_nothing :
  let s := Page.run demo_server before_upload initial in
  let s' := Page.step demo_server s ClickAddImage in
  let t := Part000.run demo_server before_upload initial in
  let t' := Part000.step demo_server t ClickAddImage in
  (requests s' = requests s ++ [add_image_request]
   /\ cache s' = cache s
   /\ uploadFile s' = Some demo_file
   /\ uploadDescription s' = js "a cat"
   /\ toasts s' = [])
  /\
  (requests t' = requests t ++ [add_image_request; list_images_request]
   /\ cache t' !! [js "search"; js "cat"] = cache t !! [js "search"; js "cat"]
   /\ uploadFile t' = None
   /\ uploadDescription t' = []
   /\ toasts t' = [(ToastSuccess, js "Image added successfully!")]).
Proof.
  cbv zeta. split; [split; [|split; [|split; [|split]]] | split; [|split; [|split; [|split]]]].
  all: vm_compute; reflexivity.
Qed.

(** C9. With an empty search text the search query is disabled, and yet
    a click on the Search button sends a search request for the empty
    query, in both files. *)
Theorem search_button_sends_empty_query (net : Network) :
  searchQueryText initial = []
  /\ enabled (Page.searchResultsQuery net initial) = false
  /\ enabled (Part000.searchResultsQuery net initial) = false
  /\ (exists n, requests (Page.step net initial ClickSearch)
                = repeat empty_search_request (S n))
  /\ (exists n, requests (Part000.step net initial ClickSearch)
                = repeat empty_search_request (S n))
  /\ endpoint_of Page.API_BASE (url empty_search_request) = Some (Search, js "?query=&top_k=5")
  /\ query_params (js "?query=&top_k=5") = Some [(js "query", []); (js "top_k", js "5")].
Proof.
  assert (H : exists n, requests (Page.step net initial ClickSearch)
                        = repeat empty_search_request (S n)).
  { destruct (page_click_search_when_empty net initial eq_refl) as (n & _ & Hn).
    exists n. exact Hn. }
  repeat split; exact H.
Qed.

(** C10. With no file chosen, [handleUpload] should report the error and
    return.  In [page.tsx] it throws instead and reports nothing; in
    [part_000] it shows the error notification and changes nothing else.
    Neither sends a request. *)
Theorem page_upload_without_file_reports_nothing (net : Network) :
  uploadFile initial = None
  /\ Page.handleUpload net initial = (Throw no_toast_error, initial)
  /\ toasts (snd (Page.handleUpload net initial)) = []
  /\ Part000.handleUpload net initial
     = (Normal tt, set_toasts [(ToastError, js "Please select a file to upload")] initial).
Proof. repeat split. Qed.

(** In [part_000] a successful upload does what is expected of it: the
    notification is shown, the file and the description are cleared, the
    image list is fetched again (up to four times when the server fails),
    and every cached query whose key does not start with ['images'], so
    every cached search, is left as it was. *)
Theorem part000_upload_success (net : Network) (d : JSON) (v : AddArgs) (s : AppState) :
  let s' := snd (Part000.addImage_onSuccess net d v s) in
  fst (Part000.addImage_onSuccess net d v s) = Normal tt
  /\ uploadFile s' = None
  /\ uploadDescription s' = []
  /\ searchQueryText s' = searchQueryText s
  /\ toasts s' = toasts s ++ [(ToastSuccess, js "Image added successfully!")]
  /\ (exists n, n <= query_retries
                /\ requests s' = requests s ++ repeat list_images_request (S n))
  /\ (forall k, partialMatchKey k [js "images"] = false -> cache s' !! k = cache s !! k)
  /\ (forall t, cache s' !! [js "search"; t] = cache s !! [js "search"; t]).
Proof.
  cbv zeta.
  assert (Hframe : forall k, partialMatchKey k [js "images"] = false ->
            cache (snd (Part000.addImage_onSuccess net d v s)) !! k = cache s !! k)
    by (intros k; apply part000_addImage_onSuccess_frame).
  destruct (part000_addImage_onSuccess net d v s) as (n & q & Hn & E).
  rewrite E in *. cbn [fst snd uploadFile uploadDescription searchQueryText toasts requests].
  split; [reflexivity|]. split; [reflexivity|]. split; [reflexivity|].
  split; [reflexivity|]. split; [reflexivity|].
  split; [exists n; split; [exact Hn | reflexivity]|].
  split; [exact Hframe|]. intros t. apply Hframe. reflexivity.
Qed.

(** In [part_000], with no file chosen, [handleUpload] shows the error
    notification and changes nothing else: no request is sent, the cache
    and the fields stay as they are. *)
Theorem part000_upload_without_file (net : Network) (s : AppState) :
  uploadFile s = None ->
  let s' := snd (Part000.handleUpload net s) in
  fst (Part000.handleUpload net s) = Normal tt
  /\ toasts s' = toasts s ++ [(ToastError, js "Please select a file to upload")]
  /\ requests s' = requests s
  /\ cache s' = cache s
  /\ uploadFile s' = uploadFile s
  /\ uploadDescription s' = uploadDescription s
  /\ searchQueryText s' = searchQueryText s
  /\ downloads s' = downloads s.
Proof.
  intros H. cbv zeta. rewrite (part000_handleUpload_without_file net s H).
  repeat split.
Qed.

Lemma part000_upload_without_file_witness :
  toasts (snd (Part000.handleUpload demo_server initial))
  = [(ToastError, js "Please select a file to upload")]
  /\ requests (snd (Part000.handleUpload demo_server initial)) = [].
Proof.
  destruct (part000_upload_without_file demo_server initial eq_refl)
    as (_ & Ht & Hr & _).
  split; [exact Ht | exact Hr].
Defined.

End ComponentBehaviour.

(** ** The vector index *)

(** *** The order of floating-point numbers *)

Section FloatOrder.

Local Open Scope Z_scope.


End FloatOrder.

Section FloatComparisons.

Local Open Scope float_scope.










End FloatComparisons.

(** *** Sorting the results *)

Section Sorting.

Import Engine.








End Sorting.

(** *** The index keeps its invariant *)

Section EngineFacts.

Import Engine EngineScenario.

Local Open Scope float_scope.




Lemma wf_empty : wf empty.
Proof.
  split; [constructor|]. split; intros e He; apply elem_of_nil in He; contradiction.
Qed.

Lemma wf_insert (i : Z) (v : Vector) (idx idx' : Index) :
  wf idx -> insert i v idx = inr idx' -> wf idx'.
Proof.
  intros (Hnd & Hdim & Hnorm). unfold insert.
  destruct (dimension_ok v idx) eqn:Hok; [|discriminate]. simpl.
  destruct (bool_decide (i ∈ ids idx)) eqn:Hin; [discriminate|].
  apply bool_decide_eq_false in Hin. intros [= <-].
  split; [|split].
  - unfold ids. cbn [entries]. rewrite map_app. simpl.
    apply NoDup_app. split; [exact Hnd|]. split.
    + intros x Hx Hx'. apply list_elem_of_singleton in Hx'. subst x. exact (Hin Hx).
    + apply NoDup_singleton.
  - cbn [entries dimension]. intros e He. apply elem_of_app in He as [He|He].
    + unfold dimension_ok in Hok. rewrite (Hdim e He) in Hok.
      apply bool_decide_eq_true in Hok. rewrite Hok. reflexivity.
    + apply list_elem_of_singleton in He. subst e. reflexivity.
  - cbn [entries]. intros e He. apply elem_of_app in He as [He|He].
    + exact (Hnorm e He).
    + apply list_elem_of_singleton in He. subst e. reflexivity.
Qed.

Lemma wf_remove (i : Z) (idx idx' : Index) :
  wf idx -> remove i idx = inr idx' -> wf idx'.
Proof.
  intros (Hnd & Hdim & Hnorm). unfold remove.
  destruct (bool_decide (i ∈ ids idx)); [|discriminate]. intros [= <-].
  assert (Hsub : forall e, e ∈ List.filter (fun e => negb (bool_decide (entry_id e = i))) (entries idx)
                           -> e ∈ entries idx).
  { intros e He. apply list_elem_of_In, filter_In in He as [He _]. apply list_elem_of_In, He. }
  split; [|split]; cbn [entries dimension].
  - unfold ids in *. cbn [entries]. clear Hdim Hnorm Hsub.
    induction (entries idx) as [|e es IH]; simpl; [constructor|].
    apply NoDup_cons in Hnd as [Hne Hnd].
    destruct (negb (bool_decide (entry_id e = i))); simpl; [|exact (IH Hnd)].
    apply NoDup_cons. split; [|exact (IH Hnd)].
    intros Hin. apply Hne. apply list_elem_of_fmap in Hin as (e' & -> & He').
    apply list_elem_of_fmap. exists e'. split; [reflexivity|].
    apply list_elem_of_In, filter_In in He' as [He' _]. apply list_elem_of_In, He'.
  - intros e He. exact (Hdim e (Hsub e He)).
  - intros e He. exact (Hnorm e (Hsub e He)).
Qed.

Lemma wf_entries (d : nat) (es : list Entry) :
  NoDup (map entry_id es) ->
  Forall (fun e => length (vector e) = d /\ entry_norm e = norm (vector e)) es ->
  wf {| dimension := Some d; entries := es |}.
Proof.
  intros Hnd Hes. rewrite Forall_forall in Hes.
  split; [exact Hnd|]. cbn [entries dimension].
  split; intros e He; apply Hes in He as [H1 H2]; [rewrite H1; reflexivity | exact H2].
Qed.

Lemma scenario_index_built :
  and_then (and_then (insert 1 [1; 0] empty) (insert 2 [0; 1]))
    (insert 3 [0x1.6666666666666p-1; 0x1.6666666666666p-1])
  = inr scenario_index.
Proof. reflexivity. Qed.

Lemma scenario_index_wf : wf scenario_index.
Proof.
  apply wf_entries.
  - apply (bool_decide_unpack _). exact I.
  - repeat constructor.
Qed.

(** The scenario of section 8: the query [[1,0]] with [top_k = 2] gives
    image 1 with similarity 1, then image 3 with similarity about 0.707;
    and [top_k = 10] against the three images gives the three. *)
Example search_scenario :
  search [1; 0] 2 scenario_index = inr [(1%Z, 1); (3%Z, 0x1.6a09e667f3bcdp-1)]
  /\ search [1; 0] 10 scenario_index
     = inr [(1%Z, 1); (3%Z, 0x1.6a09e667f3bcdp-1); (2%Z, 0)].
Proof. split; vm_compute; reflexivity. Qed.

(** *** Rounded arithmetic *)









End EngineFacts.

(** ** The contract of the index *)

Section IndexContract.

Import Engine EngineScenario.

Local Open Scope float_scope.







End IndexContract.

(** ** Footprints and frames, in general *)

Section FootprintRules.

Context {S : Type} (P : Request -> Prop) (log : S -> list Request).

Lemma only_ret {A} (a : A) : sends_only P log (ret a).
Proof. intros s. exists []. split; [symmetry; apply app_nil_r | constructor]. Qed.

Lemma only_throw {A} (e : JsError) : sends_only P log (@throw S A e).
Proof. intros s. exists []. split; [symmetry; apply app_nil_r | constructor]. Qed.

Lemma only_get : sends_only P log (@get S).
Proof. intros s. exists []. split; [symmetry; apply app_nil_r | constructor]. Qed.

Lemma only_modify (f : S -> S) :
  (forall s, log (f s) = log s) -> sends_only P log (modify f).
Proof.
  intros Hf s. exists []. simpl. rewrite Hf. split; [symmetry; apply app_nil_r | constructor].
Qed.

Lemma only_bind {A B} (m : M S A) (k : A -> M S B) :
  sends_only P log m -> (forall a, sends_only P log (k a)) ->
  sends_only P log (m ≫= k).
Proof.
  intros Hm Hk s. unfold mbind, M_bind, bind.
  destruct (Hm s) as (new1 & H1 & F1). destruct (m s) as [[a|e] s1]; simpl in H1.
  - destruct (Hk a s1) as (new2 & H2 & F2). exists (new1 ++ new2).
    rewrite H2, H1, app_assoc. split; [reflexivity | apply Forall_app_2; assumption].
  - exists new1. split; assumption.
Qed.

Lemma only_try_catch {A} (m : M S A) (h : JsError -> M S A) :
  sends_only P log m -> (forall e, sends_only P log (h e)) ->
  sends_only P log (try_catch m h).
Proof.
  intros Hm Hh s. unfold try_catch.
  destruct (Hm s) as (new1 & H1 & F1). destruct (m s) as [[a|e] s1]; simpl in H1.
  - exists new1. split; assumption.
  - destruct (Hh e s1) as (new2 & H2 & F2). exists (new1 ++ new2).
    rewrite H2, H1, app_assoc. split; [reflexivity | apply Forall_app_2; assumption].
Qed.

Lemma only_retryer {A} (fn : M S A) (retries : nat) :
  sends_only P log fn -> sends_only P log (retryer retries fn).
Proof.
  intros Hfn. induction retries as [|n IH]; simpl.
  - apply only_try_catch; [exact Hfn | intros e; apply only_throw].
  - apply only_try_catch; [exact Hfn | intros e; exact IH].
Qed.

End FootprintRules.

Section ComponentFootprintRules.

Variable P : Request -> Prop.

Lemma only_liftAsync {A} (m : Async A) :
  sends_only P whole m -> sends_only P requests (liftAsync m).
Proof.
  intros Hm s. unfold liftAsync. destruct (Hm (requests s)) as (new & H & F).
  destruct (m (requests s)) as [r log']. simpl in *. exists new. split; assumption.
Qed.

Lemma only_fetchQuery (o : Observer) :
  sends_only P whole (queryFn o) -> sends_only P requests (fetchQuery o).
Proof.
  intros Ho s. unfold fetchQuery.
  destruct (only_liftAsync _ (only_retryer P whole _ query_retries Ho) s) as (new & H & F).
  destruct (liftAsync _ s) as [r s']. simpl in *. exists new. split; assumption.
Qed.

Lemma only_run_all (ms : list (M AppState unit)) :
  Forall (sends_only P requests) ms -> sends_only P requests (run_all ms).
Proof.
  induction 1 as [|m ms Hm _ IH]; simpl; [apply only_ret|].
  apply only_bind; [exact Hm | intros _; exact IH].
Qed.

Lemma only_invalidateQueries (observers : list Observer) (key : QueryKey) :
  Forall (fun o => sends_only P whole (queryFn o)) observers ->
  sends_only P requests (invalidateQueries observers key).
Proof.
  intros Hobs. unfold invalidateQueries.
  apply only_bind; [apply only_modify; reflexivity|]. intros _.
  apply only_run_all. apply Forall_fmap.
  induction Hobs as [|o os Ho _ IH]; simpl; [constructor|].
  destruct (enabled o && partialMatchKey (queryKey o) key); [|exact IH].
  constructor; [apply only_fetchQuery, Ho | exact IH].
Qed.

Lemma only_call_member (name : string) (member : option (jsstring -> M AppState unit))
    (arg : jsstring) :
  (forall f, member = Some f -> sends_only P requests (f arg)) ->
  sends_only P requests (call_member name member arg).
Proof.
  intros H. unfold call_member. destruct member as [f|]; [apply H; reflexivity | apply only_throw].
Qed.

Lemma only_sonner (k : ToastKind) (msg : jsstring) :
  sends_only P requests (sonner_show k msg).
Proof. apply only_modify. reflexivity. Qed.

Lemma only_mutate {V D} (fn : V -> Async D) (onSuccess : D -> V -> M AppState unit)
    (onError : JsError -> M AppState unit) (v : V) :
  sends_only P whole (fn v) ->
  (forall d, sends_only P requests (onSuccess d v)) ->
  (forall e, sends_only P requests (onError e)) ->
  sends_only P requests (mutate fn onSuccess onError v).
Proof.
  intros Hfn Hs He. unfold mutate, swallow.
  apply only_try_catch; [|intros e; apply only_ret].
  apply only_try_catch.
  - apply only_bind; [apply only_liftAsync, Hfn | exact Hs].
  - intros e. apply only_bind; [apply He | intros _; apply only_throw].
Qed.

End ComponentFootprintRules.

Section FrameRules.

Context {B : Type} (part : AppState -> B).

Lemma keeps_ret {A} (a : A) : keeps part (ret a).
Proof. intros s. reflexivity. Qed.

Lemma keeps_throw {A} (e : JsError) : keeps part (@throw AppState A e).
Proof. intros s. reflexivity. Qed.

Lemma keeps_get : keeps part (@get AppState).
Proof. intros s. reflexivity. Qed.

Lemma keeps_modify (f : AppState -> AppState) :
  (forall s, part (f s) = part s) -> keeps part (modify f).
Proof. intros Hf s. apply Hf. Qed.

Lemma keeps_bind {A C} (m : M AppState A) (k : A -> M AppState C) :
  keeps part m -> (forall a, keeps part (k a)) -> keeps part (m ≫= k).
Proof.
  intros Hm Hk s. unfold mbind, M_bind, bind. specialize (Hm s).
  destruct (m s) as [[a|e] s1]; simpl in Hm; [rewrite Hk | simpl]; exact Hm.
Qed.

Lemma keeps_try_catch {A} (m : M AppState A) (h : JsError -> M AppState A) :
  keeps part m -> (forall e, keeps part (h e)) -> keeps part (try_catch m h).
Proof.
  intros Hm Hh s. unfold try_catch. specialize (Hm s).
  destruct (m s) as [[a|e] s1]; simpl in Hm; [simpl | rewrite Hh]; exact Hm.
Qed.

Lemma keeps_sonner (k : ToastKind) (msg : jsstring) :
  (forall t s, part (set_toasts t s) = part s) -> keeps part (sonner_show k msg).
Proof. intros H. apply keeps_modify. intros s. apply H. Qed.

Hypothesis Hlocal : off_network part.

Lemma keeps_liftAsync {A} (m : Async A) : keeps part (liftAsync m).
Proof.
  intros s. unfold liftAsync. destruct (m (requests s)) as [r l]. simpl.
  apply (proj1 Hlocal).
Qed.

Lemma keeps_fetchQuery (o : Observer) : keeps part (fetchQuery o).
Proof.
  intros s. unfold fetchQuery.
  pose proof (keeps_liftAsync (retryer query_retries (queryFn o)) s) as H.
  destruct (liftAsync _ s) as [r s']. simpl in *.
  rewrite (proj2 Hlocal). exact H.
Qed.

Lemma keeps_run_all (ms : list (M AppState unit)) :
  Forall (keeps part) ms -> keeps part (run_all ms).
Proof.
  induction 1 as [|m ms Hm _ IH]; simpl; [apply keeps_ret|].
  apply keeps_bind; [exact Hm | intros _; exact IH].
Qed.

Lemma keeps_invalidateQueries (observers : list Observer) (key : QueryKey) :
  keeps part (invalidateQueries observers key).
Proof.
  unfold invalidateQueries.
  apply keeps_bind; [apply keeps_modify; intros s; apply (proj2 Hlocal)|]. intros _.
  apply keeps_run_all, Forall_fmap, Forall_forall. intros o _. apply keeps_fetchQuery.
Qed.

Lemma keeps_call_member (name : string) (member : option (jsstring -> M AppState unit))
    (arg : jsstring) :
  (forall f, member = Some f -> keeps part (f arg)) ->
  keeps part (call_member name member arg).
Proof.
  intros H. unfold call_member. destruct member as [f|]; [apply H; reflexivity | apply keeps_throw].
Qed.

Lemma keeps_mutate {V D} (fn : V -> Async D) (onSuccess : D -> V -> M AppState unit)
    (onError : JsError -> M AppState unit) (v : V) :
  (forall d, keeps part (onSuccess d v)) ->
  (forall e, keeps part (onError e)) ->
  keeps part (mutate fn onSuccess onError v).
Proof.
  intros Hs He. unfold mutate, swallow.
  apply keeps_try_catch; [|intros e; apply keeps_ret].
  apply keeps_try_catch.
  - apply keeps_bind; [apply keeps_liftAsync | exact Hs].
  - intros e. apply keeps_bind; [apply He | intros _; apply keeps_throw].
Qed.

End FrameRules.

(** ** The form of every request *)

Section RequestForm.

Variable net : Network.

Lemma shaped_list_images : shaped list_images_request.
Proof. unfold shaped. simpl. auto. Qed.

Lemma shaped_search (e : jsstring) :
  Forall (fun c => uri_safe c = true) e -> shaped (search_request e 5).
Proof.
  intros He. unfold shaped, search_request. cbn [url method body].
  rewrite endpoint_search. split; [reflexivity|]. split; [reflexivity|].
  exists e. apply query_params_search, He.
Qed.

Lemma shaped_add (f : File) (d : jsstring) : shaped (add_request f d).
Proof. unfold shaped. simpl. split; [reflexivity|]. split; [reflexivity|]. eauto. Qed.

Lemma shaped_download (imageId : number) : shaped (download_request imageId).
Proof.
  unfold shaped, download_request. cbn [url method body].
  rewrite endpoint_download_image. split; [reflexivity|]. split; [reflexivity|]. eauto.
Qed.

Lemma api_shaped :
  sends_only shaped whole (Page.fetchImages net)
  /\ (forall q, sends_only shaped whole (Page.searchImages net {| query := q; topK := None |}))
  /\ (forall args, sends_only shaped whole (Page.addImage net args))
  /\ (forall imageId, sends_only shaped whole (Page.downloadImage net imageId)).
Proof.
  split; [|split; [|split]]; intros; intros log; unfold whole.
  - rewrite page_fetchImages_log. eexists; split; [reflexivity|].
    constructor; [apply shaped_list_images | constructor].
  - rewrite page_searchImages_log. cbn [query topK default].
    destruct (encode q) as [e|] eqn:Hq.
    + eexists; split; [reflexivity|].
      constructor; [apply (shaped_search e), (encode_safe q), Hq | constructor].
    + exists []. rewrite app_nil_r. split; [reflexivity | constructor].
  - rewrite page_addImage_log. eexists; split; [reflexivity|].
    constructor; [apply shaped_add | constructor].
  - rewrite page_downloadImage_log. eexists; split; [reflexivity|].
    constructor; [apply shaped_download | constructor].
Qed.

Ltac shape :=
  repeat first
    [ apply (proj1 api_shaped) | apply (proj1 (proj2 api_shaped))
    | apply (proj1 (proj2 (proj2 api_shaped))) | apply (proj2 (proj2 (proj2 api_shaped)))
    | apply only_fetchQuery
    | apply only_invalidateQueries;
      unfold Page.observers, Part000.observers; repeat constructor;
      cbn [queryFn Page.imagesQuery Page.searchResultsQuery
           Part000.imagesQuery Part000.searchResultsQuery]
    | apply only_sonner
    | apply only_call_member; intros ? [= <-]
    | apply only_ret | apply only_throw | apply only_get
    | apply only_modify; reflexivity
    | match goal with
      | |- sends_only _ _ (if ?b then _ else _) => destruct b
      | |- sends_only _ _ (match ?x with Some _ => _ | None => _ end) => destruct x
      end
    | apply only_bind; [|intros ?] ].

Lemma page_handle_shaped (e : Event) : sends_only shaped requests (Page.handle net e).
Proof.
  destruct e; unfold Page.handle, fetchOptionally, refetch, Page.handleFileChange,
    Page.handleUpload, Page.downloadImageMutation, Page.addImageMutation, Page.toast;
    cbn [queryFn Page.imagesQuery Page.searchResultsQuery]; shape.
  - apply only_mutate; intros;
      unfold Page.addImage_onSuccess, Page.addImage_onError, Page.toast; shape.
  - apply only_mutate; intros;
      unfold Page.download_onSuccess, Page.download_onError, Page.toast; shape.
Qed.

Lemma part000_handle_shaped (e : Event) : sends_only shaped requests (Part000.handle net e).
Proof.
  destruct e; unfold Part000.handle, fetchOptionally, refetch, Part000.handleFileChange,
    Part000.handleUpload, Part000.downloadImageMutation, Part000.addImageMutation,
    Part000.toast, sonner_toast;
    cbn [queryFn Part000.imagesQuery Part000.searchResultsQuery]; shape.
  - apply only_mutate; intros;
      unfold Part000.addImage_onSuccess, Part000.addImage_onError, Part000.toast, sonner_toast;
      shape.
  - apply only_mutate; intros;
      unfold Part000.download_onSuccess, Part000.download_onError, Part000.toast, sonner_toast;
      shape.
Qed.

Lemma page_run_shaped (events : list Event) (s : AppState) :
  Forall shaped (requests s) -> Forall shaped (requests (Page.run net events s)).
Proof.
  revert s. induction events as [|e es IH]; intros s Hs; [exact Hs|].
  change (Page.run net (e :: es) s) with (Page.run net es (Page.step net s e)).
  apply IH. unfold Page.step. destruct (page_handle_shaped e s) as (new & -> & F).
  apply Forall_app_2; assumption.
Qed.

Lemma part000_run_shaped (events : list Event) (s : AppState) :
  Forall shaped (requests s) -> Forall shaped (requests (Part000.run net events s)).
Proof.
  revert s. induction events as [|e es IH]; intros s Hs; [exact Hs|].
  change (Part000.run net (e :: es) s) with (Part000.run net es (Part000.step net s e)).
  apply IH. unfold Part000.step. destruct (part000_handle_shaped e s) as (new & -> & F).
  apply Forall_app_2; assumption.
Qed.

(** Whatever the user does and whatever the server answers, every request
    of the component is a GET without a body, except for [add_image],
    which is a POST with the form fields [image] and [description]; and
    every search asks for [top_k=5], the component never passing another
    value. *)
Theorem component_requests_shaped (events : list Event) :
  Forall shaped (requests (Page.run net events initial))
  /\ Forall shaped (requests (Part000.run net events initial)).
Proof. split; [apply page_run_shaped | apply part000_run_shaped]; constructor. Qed.

End RequestForm.

(** ** What each event may change *)

Section EventFrames.

Variable net : Network.

Lemma local_searchQueryText : off_network searchQueryText.
Proof. repeat split. Qed.

Lemma local_uploadFile : off_network uploadFile.
Proof. repeat split. Qed.

Lemma local_uploadDescription : off_network uploadDescription.
Proof. repeat split. Qed.

Lemma local_downloads : off_network downloads.
Proof. repeat split. Qed.

Lemma local_toasts : off_network toasts.
Proof. repeat split. Qed.

Ltac frame Hl :=
  repeat first
    [ apply keeps_fetchQuery; exact Hl
    | apply keeps_invalidateQueries; exact Hl
    | apply keeps_sonner; reflexivity
    | apply keeps_call_member; intros ? [= <-]
    | apply keeps_mutate; [exact Hl | intros ? | intros ?]
    | apply keeps_ret | apply keeps_throw | apply keeps_get
    | apply keeps_modify; reflexivity
    | match goal with
      | |- keeps _ (if ?b then _ else _) => destruct b
      | |- keeps _ (match ?x with Some _ => _ | None => _ end) => destruct x
      end
    | apply keeps_bind; [|intros ?] ].

Ltac open_page :=
  unfold Page.handle, fetchOptionally, refetch, Page.handleFileChange,
    Page.handleUpload, Page.downloadImageMutation, Page.addImageMutation,
    Page.addImage_onSuccess, Page.addImage_onError,
    Page.download_onSuccess, Page.download_onError, Page.toast.

Ltac open_part000 :=
  unfold Part000.handle, fetchOptionally, refetch, Part000.handleFileChange,
    Part000.handleUpload, Part000.downloadImageMutation, Part000.addImageMutation,
    Part000.addImage_onSuccess, Part000.addImage_onError,
    Part000.download_onSuccess, Part000.download_onError, Part000.toast, sonner_toast.

(** The search text is what the user typed last: no answer of the
    server, no upload and no download rewrites it. *)
Lemma page_keeps_search_text (e : Event) :
  (forall t, e <> ChangeSearchText t) -> keeps searchQueryText (Page.handle net e).
Proof.
  intros He. destruct e; try (exfalso; eapply He; reflexivity);
    open_page; frame local_searchQueryText.
Qed.

Lemma part000_keeps_search_text (e : Event) :
  (forall t, e <> ChangeSearchText t) -> keeps searchQueryText (Part000.handle net e).
Proof.
  intros He. destruct e; try (exfalso; eapply He; reflexivity);
    open_part000; frame local_searchQueryText.
Qed.

Lemma page_keeps_downloads (e : Event) :
  (forall i, e <> ClickDownload i) -> keeps downloads (Page.handle net e).
Proof.
  intros He. destruct e; try (exfalso; eapply He; reflexivity);
    open_page; frame local_downloads.
Qed.

Lemma part000_keeps_downloads (e : Event) :
  (forall i, e <> ClickDownload i) -> keeps downloads (Part000.handle net e).
Proof.
  intros He. destruct e; try (exfalso; eapply He; reflexivity);
    open_part000; frame local_downloads.
Qed.

Lemma page_keeps_file (e : Event) :
  (forall f, e <> ChangeFile (Some f)) -> keeps uploadFile (Page.handle net e).
Proof.
  intros He. destruct e as [| | | |[f|]| | |];
    try (exfalso; eapply He; reflexivity); open_page; frame local_uploadFile.
Qed.

Lemma part000_keeps_file (e : Event) :
  (forall f, e <> ChangeFile (Some f)) -> e <> ClickAddImage ->
  keeps uploadFile (Part000.handle net e).
Proof.
  intros He Ha. destruct e as [| | | |[f|]| | |];
    try (exfalso; eapply He; reflexivity); try (exfalso; apply Ha; reflexivity);
    open_part000; frame local_uploadFile.
Qed.

Lemma page_keeps_description (e : Event) :
  (forall t, e <> ChangeDescription t) -> keeps uploadDescription (Page.handle net e).
Proof.
  intros He. destruct e; try (exfalso; eapply He; reflexivity);
    open_page; frame local_uploadDescription.
Qed.

Lemma part000_keeps_description (e : Event) :
  (forall t, e <> ChangeDescription t) -> e <> ClickAddImage ->
  keeps uploadDescription (Part000.handle net e).
Proof.
  intros He Ha. destruct e; try (exfalso; eapply He; reflexivity);
    try (exfalso; apply Ha; reflexivity);
    open_part000; frame local_uploadDescription.
Qed.

Lemma part000_keeps_toasts (e : Event) :
  e <> ClickAddImage -> (forall i, e <> ClickDownload i) ->
  keeps toasts (Part000.handle net e).
Proof.
  intros Ha Hd. destruct e; try (exfalso; eapply Hd; reflexivity);
    try (exfalso; apply Ha; reflexivity);
    open_part000; frame local_toasts.
Qed.

Lemma typing_keeps_text (t : jsstring) (s : AppState) :
  searchQueryText
    (snd (fetchOptionally (Page.searchResultsQuery net (setSearchQueryText t s))
            (setSearchQueryText t s))) = t.
Proof.
  unfold fetchOptionally. destruct (enabled _).
  - rewrite (keeps_fetchQuery searchQueryText local_searchQueryText). reflexivity.
  - reflexivity.
Qed.

Lemma page_step_search_text (s : AppState) (e : Event) :
  searchQueryText (Page.step net s e)
  = match e with ChangeSearchText t => t | _ => searchQueryText s end.
Proof.
  unfold Page.step. destruct e.
  2: { unfold Page.handle, mbind, M_bind, bind, modify, get. cbn [fst snd].
       apply typing_keeps_text. }
  all: apply page_keeps_search_text; intros; discriminate.
Qed.

Lemma part000_step_search_text (s : AppState) (e : Event) :
  searchQueryText (Part000.step net s e)
  = match e with ChangeSearchText t => t | _ => searchQueryText s end.
Proof.
  unfold Part000.step. destruct e.
  2: { unfold Part000.handle, mbind, M_bind, bind, modify, get. cbn [fst snd].
       apply typing_keeps_text. }
  all: apply part000_keeps_search_text; intros; discriminate.
Qed.

(** Only typing in the search box changes the search text; only a click
    on Download adds a saved file; only choosing a file or a click on Add
    Image changes the chosen file, and only typing a description or a
    click on Add Image changes the description.  Closing the file dialog
    without a file keeps the file chosen before. *)
Theorem events_change_only_their_own_state (s : AppState) (e : Event) :
  let p := Page.step net s e in
  let q := Part000.step net s e in
  (searchQueryText p = match e with ChangeSearchText t => t | _ => searchQueryText s end
   /\ searchQueryText q = searchQueryText p)
  /\ match e with
     | ClickDownload _ => True
     | _ => downloads p = downloads s /\ downloads q = downloads s
     end
  /\ match e with
     | ChangeFile (Some f) => uploadFile p = Some f /\ uploadFile q = Some f
     | ClickAddImage => True
     | _ => uploadFile p = uploadFile s /\ uploadFile q = uploadFile s
     end
  /\ match e with
     | ChangeDescription t => uploadDescription p = t /\ uploadDescription q = t
     | ClickAddImage => True
     | _ => uploadDescription p = uploadDescription s /\ uploadDescription q = uploadDescription s
     end.
Proof.
  cbv zeta. unfold Page.step, Part000.step.
  split; [|split; [|split]].
  - fold (Page.step net s e). fold (Part000.step net s e).
    rewrite page_step_search_text, part000_step_search_text. auto.
  - destruct e; try exact I.
    all: rewrite page_keeps_downloads, part000_keeps_downloads by (intros; discriminate); auto.
  - destruct e as [| | | |[f|]| | |]; try exact I; try (split; reflexivity).
    all: rewrite page_keeps_file, part000_keeps_file by (intros; discriminate); auto.
  - destruct e; try exact I; try (split; reflexivity).
    all: rewrite page_keeps_description, part000_keeps_description by (intros; discriminate); auto.
Qed.

End EventFrames.

(** ** Clicks that start a mutation *)

Section Mutations.

Variable net : Network.

(** What [mutate] leaves behind, by the outcomes of the function and of
    the callbacks. *)
Lemma mutate_state {V D} (fn : V -> Async D) (onSuccess : D -> V -> M AppState unit)
    (onError : JsError -> M AppState unit) (v : V) (s : AppState) :
  snd (mutate fn onSuccess onError v s) =
  match fn v (requests s) with
  | (Normal d, l) =>
    match onSuccess d v (set_requests l s) with
    | (Normal _, s2) => s2
    | (Throw e, s2) => snd (onError e s2)
    end
  | (Throw e, l) => snd (onError e (set_requests l s))
  end.
Proof.
  unfold mutate, swallow, try_catch, mbind, M_bind, bind, liftAsync, throw, ret.
  destruct (fn v (requests s)) as [[d|e] l].
  - destruct (onSuccess d v (set_requests l s)) as [[u|e] s2]; [reflexivity|].
    destruct (onError e s2) as [[u|e'] s3]; reflexivity.
  - destruct (onError e (set_requests l s)) as [[u|e'] s3]; reflexivity.
Qed.

(** A click on Download sends one request, retried never.  When the
    server answers OK the browser saves one file, [image_<id>.jpg],
    holding the body; otherwise nothing is saved.  The cache is not
    touched.  In [part_000] the click ends with one notification, of
    success or with the message of the error. *)
Theorem download_click (s : AppState) (imageId : number) :
  let r := fst (Page.downloadImage net imageId (requests s)) in
  let saved := match r with
               | Normal b => [(download_name imageId, b)]
               | Throw _ => []
               end in
  let p := Page.step net s (ClickDownload imageId) in
  let q := Part000.step net s (ClickDownload imageId) in
  requests p = requests s ++ [download_request imageId]
  /\ requests q = requests s ++ [download_request imageId]
  /\ downloads p = downloads s ++ saved
  /\ downloads q = downloads s ++ saved
  /\ toasts q = toasts s ++
       [match r with
        | Normal _ => (ToastSuccess, js "Image downloaded successfully!")
        | Throw e => (ToastError, js "Error downloading image: " ++ message e)
        end]
  /\ cache p = cache s /\ cache q = cache s.
Proof.
  cbv zeta. unfold Page.step, Part000.step, Page.handle, Part000.handle,
    Page.downloadImageMutation, Part000.downloadImageMutation.
  rewrite !mutate_state.
  change (Part000.downloadImage net imageId (requests s))
    with (Page.downloadImage net imageId (requests s)).
  pose proof (page_downloadImage_log net imageId (requests s)) as Hlog.
  destruct (Page.downloadImage net imageId (requests s)) as [[b|e] l].
  all: simpl in Hlog; subst l; cbn; rewrite ?app_nil_r; repeat split; reflexivity.
Qed.

(** A click on Add Image with a file chosen sends one [add_image] POST
    with that file and the description of the form, retried never, in
    both files.  In [part_000], when the server accepts it, the form is
    cleared, the success is notified and the image list is fetched again;
    when it fails, the error is notified with its message and the form,
    the cache and the image list stay as they are, ready for another try. *)
Theorem upload_click (s : AppState) (f : File) :
  uploadFile s = Some f ->
  let post := add_request f (uploadDescription s) in
  let r := fst (Part000.addImage net {| file := f; add_description := uploadDescription s |}
                  (requests s)) in
  let p := Page.step net s ClickAddImage in
  let q := Part000.step net s ClickAddImage in
  requests p = requests s ++ [post]
  /\ match r with
     | Normal _ =>
       (exists n, n <= query_retries
          /\ requests q = requests s ++ [post] ++ repeat list_images_request (S n))
       /\ uploadFile q = None /\ uploadDescription q = []
       /\ toasts q = toasts s ++ [(ToastSuccess, js "Image added successfully!")]
     | Throw e =>
       requests q = requests s ++ [post]
       /\ uploadFile q = Some f /\ uploadDescription q = uploadDescription s
       /\ cache q = cache s
       /\ toasts q = toasts s ++ [(ToastError, js "Error adding image: " ++ message e)]
     end.
Proof.
  intros Hf. cbv zeta. unfold Page.step, Part000.step, Page.handle, Part000.handle,
    Page.handleUpload, Part000.handleUpload, mbind, M_bind, bind, get.
  rewrite Hf. unfold Page.addImageMutation, Part000.addImageMutation.
  rewrite !mutate_state.
  change (Page.addImage net) with (Part000.addImage net).
  pose proof (page_addImage_log net {| file := f; add_description := uploadDescription s |}
                (requests s)) as Hlog.
  change (Page.addImage net) with (Part000.addImage net) in Hlog.
  cbn [file add_description] in Hlog.
  destruct (Part000.addImage net _ (requests s)) as [[d|e] l]; simpl in Hlog; subst l.
  - split; [reflexivity|]. cbn [fst].
    match goal with
    | |- context [Part000.addImage_onSuccess net d ?v ?s1] =>
      destruct (part000_addImage_onSuccess net d v s1) as (n & q & Hn & E)
    end.
    rewrite E. cbn. split; [|repeat split; reflexivity].
    exists n. split; [exact Hn|]. rewrite <- app_assoc. reflexivity.
  - split; [reflexivity|]. cbn. rewrite Hf. repeat split; reflexivity.
Qed.

(** In [part_000] a click on Add Image or on Download ends with exactly
    one notification, whatever the server answers and whether or not a
    file is chosen; no other event shows any. *)
Theorem part000_one_notification_per_click (s : AppState) (e : Event) :
  exists shown,
    toasts (Part000.step net s e) = toasts s ++ shown
    /\ length shown = match e with
                      | ClickAddImage | ClickDownload _ => 1
                      | _ => 0
                      end.
Proof.
  destruct e.
  1-6: exists []; rewrite app_nil_r; split; [|reflexivity];
       unfold Part000.step; apply part000_keeps_toasts; discriminate.
  - unfold Part000.step, Part000.handle.
    destruct (uploadFile s) as [f|] eqn:Hf.
    + unfold Part000.handleUpload, mbind, M_bind, bind, get. rewrite Hf.
      unfold Part000.addImageMutation. rewrite mutate_state.
      destruct (Part000.addImage net _ (requests s)) as [[d|err] l].
      * match goal with
        | |- context [Part000.addImage_onSuccess net d ?v ?s1] =>
          destruct (part000_addImage_onSuccess net d v s1) as (n & q & Hn & E)
        end.
        rewrite E. eexists. split; reflexivity.
      * eexists. split; reflexivity.
    + rewrite (part000_handleUpload_without_file net s Hf). eexists. split; reflexivity.
  - unfold Part000.step, Part000.handle, Part000.downloadImageMutation.
    rewrite mutate_state.
    destruct (Part000.downloadImage net imageId (requests s)) as [[b|err] l];
      eexists; split; reflexivity.
Qed.

End Mutations.

Lemma upload_click_witness :
  let s := setUploadFile (Some demo_file) initial in
  requests (Page.step silent_server s ClickAddImage) = [add_request demo_file []]
  /\ toasts (Part000.step silent_server s ClickAddImage)
     = [(ToastError, js "Error adding image: An error occurred")]
  /\ uploadFile (Part000.step silent_server s ClickAddImage) = Some demo_file.
Proof.
  cbv zeta.
  pose proof (upload_click silent_server (setUploadFile (Some demo_file) initial) demo_file eq_refl) as H.
  cbv zeta in H. destruct H as (Hp & Hq).
  split; [exact Hp|]. cbn in Hq. destruct Hq as (_ & Hfile & _ & _ & Htoast).
  split; [exact Htoast | exact Hfile].
Defined.

(** ** The query cache *)

Section QueryCache.

Variable net : Network.

(** A fetch settles the entry under its own key and no other. *)
Lemma fetchQuery_frame (o : Observer) (s : AppState) (k : QueryKey) :
  k <> queryKey o -> cache (snd (fetchQuery o s)) !! k = cache s !! k.
Proof.
  intros Hk. unfold fetchQuery, liftAsync.
  destruct (retryer query_retries (queryFn o) (requests s)) as [r l]. cbn.
  rewrite lookup_insert_ne by congruence. reflexivity.
Qed.

Lemma fetchOptionally_frame (o : Observer) (s : AppState) (k : QueryKey) :
  k <> queryKey o -> cache (snd (fetchOptionally o s)) !! k = cache s !! k.
Proof.
  intros Hk. unfold fetchOptionally. destruct (enabled o); [|reflexivity].
  apply fetchQuery_frame, Hk.
Qed.

(** A fetch whose first try succeeds sends what that try sends and
    stores its result. *)
Lemma fetchQuery_success (o : Observer) (s : AppState) (j : JSON) (l : list Request) :
  queryFn o (requests s) = (Normal j, l) ->
  fetchQuery o s
  = (Normal tt,
     set_cache (<[queryKey o := {| data := Some j; error := None; isInvalidated := false |}]>
                  (cache s))
       (set_requests l s)).
Proof.
  intros H. unfold fetchQuery, liftAsync.
  rewrite (retryer_success _ _ _ _ _ H). reflexivity.
Qed.

Lemma search_key_not_images (t : jsstring) : [js "search"; t] <> [js "images"].
Proof. discriminate. Qed.

Lemma page_step_cache_frame (s : AppState) (e : Event) (t : jsstring) :
  searchQueryText (Page.step net s e) <> t ->
  cache (Page.step net s e) !! [js "search"; t] = cache s !! [js "search"; t].
Proof.
  intros Ht.
  assert (Hnow : match e with ChangeSearchText u => u | _ => searchQueryText s end <> t).
  { rewrite <- (page_step_search_text net s e). exact Ht. }
  clear Ht. unfold Page.step. destruct e.
  - unfold Page.handle, mbind, M_bind, bind, get. cbn [fst snd].
    pose proof (fetchOptionally_frame (Page.imagesQuery net) s [js "search"; t]
                  (search_key_not_images t)) as H1.
    destruct (fetchOptionally (Page.imagesQuery net) s) as [[u|err] s1]; cbn [fst snd] in *.
    + rewrite fetchOptionally_frame; [exact H1|].
      unfold Page.searchResultsQuery. cbn [queryKey]. congruence.
    + exact H1.
  - unfold Page.handle, mbind, M_bind, bind, get, modify. cbn [fst snd].
    rewrite fetchOptionally_frame; [reflexivity|].
    unfold Page.searchResultsQuery. cbn [queryKey searchQueryText setSearchQueryText]. congruence.
  - unfold Page.handle, refetch, mbind, M_bind, bind, get. cbn [fst snd].
    rewrite fetchQuery_frame; [reflexivity|].
    unfold Page.searchResultsQuery. cbn [queryKey]. congruence.
  - unfold Page.handle, refetch. apply fetchQuery_frame, search_key_not_images.
  - destruct f; reflexivity.
  - reflexivity.
  - destruct (page_upload_changes_only_the_log net s) as (H & _).
    unfold Page.step in H. rewrite H. reflexivity.
  - unfold Page.handle, Page.downloadImageMutation. rewrite mutate_state.
    destruct (Page.downloadImage net imageId (requests s)) as [[b|err] l]; reflexivity.
Qed.

Lemma part000_step_cache_frame (s : AppState) (e : Event) (t : jsstring) :
  searchQueryText (Part000.step net s e) <> t ->
  cache (Part000.step net s e) !! [js "search"; t] = cache s !! [js "search"; t].
Proof.
  intros Ht.
  assert (Hnow : match e with ChangeSearchText u => u | _ => searchQueryText s end <> t).
  { rewrite <- (part000_step_search_text net s e). exact Ht. }
  clear Ht. unfold Part000.step. destruct e.
  - unfold Part000.handle, mbind, M_bind, bind, get. cbn [fst snd].
    pose proof (fetchOptionally_frame (Part000.imagesQuery net) s [js "search"; t]
                  (search_key_not_images t)) as H1.
    destruct (fetchOptionally (Part000.imagesQuery net) s) as [[u|err] s1]; cbn [fst snd] in *.
    + rewrite fetchOptionally_frame; [exact H1|].
      unfold Part000.searchResultsQuery. cbn [queryKey]. congruence.
    + exact H1.
  - unfold Part000.handle, mbind, M_bind, bind, get, modify. cbn [fst snd].
    rewrite fetchOptionally_frame; [reflexivity|].
    unfold Part000.searchResultsQuery. cbn [queryKey searchQueryText setSearchQueryText].
    congruence.
  - unfold Part000.handle, refetch, mbind, M_bind, bind, get. cbn [fst snd].
    rewrite fetchQuery_frame; [reflexivity|].
    unfold Part000.searchResultsQuery. cbn [queryKey]. congruence.
  - unfold Part000.handle, refetch. apply fetchQuery_frame, search_key_not_images.
  - destruct f; reflexivity.
  - reflexivity.
  - unfold Part000.handle. destruct (uploadFile s) as [f|] eqn:Hf.
    + unfold Part000.handleUpload, mbind, M_bind, bind, get. rewrite Hf.
      unfold Part000.addImageMutation. rewrite mutate_state.
      destruct (Part000.addImage net _ (requests s)) as [[d|err] l]; [|reflexivity].
      pose proof (part000_addImage_onSuccess_frame net d
                    {| file := f; add_description := uploadDescription s |}
                    (set_requests l s) [js "search"; t] eq_refl) as H.
      destruct (Part000.addImage_onSuccess net d _ (set_requests l s)) as [[u|err] s2].
      * exact H.
      * cbn [snd] in H. unfold Part000.addImage_onError, call_member, Part000.toast, sonner_toast.
        cbn. exact H.
    + rewrite (part000_handleUpload_without_file net s Hf). reflexivity.
  - unfold Part000.handle, Part000.downloadImageMutation. rewrite mutate_state.
    destruct (Part000.downloadImage net imageId (requests s)) as [[b|err] l]; reflexivity.
Qed.

(** What is cached for a search text is replaced only by a fetch for the
    text that is in the search box: searching for another text,
    refreshing the image list, uploading and downloading leave it as it
    is. *)
Theorem cached_search_changes_only_for_current_text (s : AppState) (e : Event) (t : jsstring) :
  searchQueryText (Page.step net s e) <> t ->
  cache (Page.step net s e) !! [js "search"; t] = cache s !! [js "search"; t]
  /\ cache (Part000.step net s e) !! [js "search"; t] = cache s !! [js "search"; t].
Proof.
  intros Ht. split; [apply page_step_cache_frame, Ht|].
  apply part000_step_cache_frame.
  rewrite part000_step_search_text, <- (page_step_search_text net s e). exact Ht.
Qed.

(** Typing a text that is not empty fetches the search for it; when the
    server answers OK with JSON, one request is sent and the answer is
    what the cache then holds for that text. *)
Theorem typed_search_is_cached_under_its_text
    (s : AppState) (t e : jsstring) (resp : Response) (j : JSON) :
  t <> [] ->
  encodeURIComponent t = Normal e ->
  net (requests s) (search_request e 5) = Normal resp ->
  ok resp = true ->
  json resp = Normal j ->
  let p := Page.step net s (ChangeSearchText t) in
  Part000.step net s (ChangeSearchText t) = p
  /\ requests p = requests s ++ [search_request e 5]
  /\ cache p !! [js "search"; t]
     = Some {| data := Some j; error := None; isInvalidated := false |}
  /\ searchQueryText p = t.
Proof.
  intros Ht He Hnet Hok Hj. cbv zeta. split; [reflexivity|].
  unfold Page.step, Page.handle, mbind, M_bind, bind, modify, get. cbn [fst snd].
  set (s1 := setSearchQueryText t s).
  assert (Hfn : queryFn (Page.searchResultsQuery net s1) (requests s1)
                = (Normal j, requests s ++ [search_request e 5])).
  { unfold Page.searchResultsQuery, s1. cbn [queryFn searchQueryText setSearchQueryText requests].
    unfold Page.searchImages. cbn [query topK default]. rewrite He.
    unfold lift_completion, mbind, M_bind, bind, fetch.
    change (net (requests s) _) with (net (requests s) (search_request e 5)).
    rewrite Hnet. unfold Page.handleResponse. rewrite Hok. cbn. rewrite Hj. reflexivity. }
  assert (Hen : enabled (Page.searchResultsQuery net s1) = true).
  { unfold Page.searchResultsQuery, s1. cbn [enabled searchQueryText setSearchQueryText].
    destruct t; [contradiction | reflexivity]. }
  unfold fetchOptionally. rewrite Hen, (fetchQuery_success _ _ _ _ Hfn).
  cbn [fst snd requests cache searchQueryText set_cache set_requests queryKey
       Page.searchResultsQuery].
  rewrite lookup_insert_eq. split; [reflexivity|]. split; reflexivity.
Qed.

End QueryCache.

Lemma cached_search_changes_only_for_current_text_witness :
  let s := Page.run demo_server [ChangeSearchText (js "cat")] initial in
  cache (Page.step demo_server s (ChangeSearchText (js "dog"))) !! [js "search"; js "cat"]
  = cache s !! [js "search"; js "cat"].
Proof.
  cbv zeta.
  apply (cached_search_changes_only_for_current_text demo_server).
  vm_compute. discriminate.
Defined.

Lemma typed_search_is_cached_under_its_text_witness :
  cache (Page.step demo_server initial (ChangeSearchText (js "red car")))
    !! [js "search"; js "red car"]
  = Some {| data := Some (JArray []); error := None; isInvalidated := false |}.
Proof.
  assert (Ht : js "red car" <> []) by discriminate.
  pose proof (typed_search_is_cached_under_its_text demo_server initial (js "red car")
                (js "red%20car")
                {| ok := true; text := js "[]"; json := Normal (JArray []); blob := [] |}
                (JArray []) Ht eq_refl eq_refl eq_refl eq_refl) as H.
  cbv zeta in H. exact (proj1 (proj2 (proj2 H))).
Defined.

(** ** Outcomes of the API layer *)

Section Outcomes.

Lemma or_else_refusal (resp : Response) (fallback : jsstring) :
  fallback <> [] -> refusal resp (mkError Error (or_else (text resp) fallback)).
Proof.
  intros Hf. unfold refusal, or_else. cbn [kind message].
  split; [reflexivity|]. destruct (text resp) as [|c t]; cbn [truthy].
  - split; [exact Hf | intros H; contradiction].
  - split; [discriminate | reflexivity].
Qed.

Lemma handleResponse_outcome (net : Network) (log : list Request) (r : Request) :
  outcome_of net log r json (fst ((fetch net r ≫= Page.handleResponse) log)).
Proof.
  unfold outcome_of. rewrite fetch_then_result.
  destruct (net log r) as [resp|e]; [|reflexivity].
  unfold Page.handleResponse. destruct (ok resp); cbn; [reflexivity|].
  eexists. split; [reflexivity|]. apply or_else_refusal. discriminate.
Qed.

Lemma page_api_outcomes :
  api_outcomes Page.fetchImages Page.searchImages Page.addImage Page.downloadImage.
Proof.
  intros net log. split; [|split; [|split]].
  - apply handleResponse_outcome.
  - intros q k e He. unfold Page.searchImages. cbn [query topK]. rewrite He.
    apply (handleResponse_outcome net log (search_request e (default 5%Z k))).
  - intros f d. apply (handleResponse_outcome net log (add_request f d)).
  - intros imageId. unfold outcome_of, Page.downloadImage. rewrite fetch_then_result.
    change (net log _) with (net log (download_request imageId)).
    destruct (net log (download_request imageId)) as [resp|e]; [|reflexivity].
    destruct (ok resp); cbn; [reflexivity|].
    eexists. split; [reflexivity|]. apply or_else_refusal. discriminate.
Qed.

(** In both files a call of the API layer gives data only from a response
    that is OK: the parsed JSON, or the blob for a download.  A response
    that is not OK always ends in an [Error] whose message is the text of
    the response, or a fixed message when that text is empty, so never an
    empty one; a fetch that fails ends in its own error. *)
Theorem api_layer_outcomes :
  api_outcomes Page.fetchImages Page.searchImages Page.addImage Page.downloadImage
  /\ api_outcomes Part000.fetchImages Part000.searchImages Part000.addImage
       Part000.downloadImage.
Proof. split; exact page_api_outcomes. Qed.

End Outcomes.

(** ** What a request tells about the call that sent it *)

Section Decoding.

Local Open Scope N_scope.

(** Arithmetic on octets: bit operations and divisions by constants. *)
Ltac octets := zify; Z.to_euclidean_division_equations; lia.

Lemma below_all (P : N -> bool) (n : nat) (x : N) :
  forallb P (map N.of_nat (seq 0 n)) = true -> x < N.of_nat n -> P x = true.
Proof.
  intros Hall Hx. rewrite forallb_forall in Hall. apply Hall.
  apply in_map_iff. exists (N.to_nat x). split; [apply N2Nat.id|].
  apply in_seq. lia.
Qed.

Lemma lor_marker (marker : N) (free : nat) (x : N) :
  forallb (fun k => N.lor marker k =? marker + k) (map N.of_nat (seq 0 free)) = true ->
  x < N.of_nat free -> N.lor marker x = marker + x.
Proof.
  intros Hall Hx. apply N.eqb_eq.
  exact (below_all (fun k => N.lor marker k =? marker + k) free x Hall Hx).
Qed.

Lemma unhex_hex_digit (n : N) : n < 16 -> unhex (hex_digit n) = Some n.
Proof.
  intros Hn.
  assert (H : (match unhex (hex_digit n) with Some m => m =? n | None => false end) = true).
  { apply (below_all (fun k => match unhex (hex_digit k) with Some m => m =? k | None => false end)
             16 n); [reflexivity | exact Hn]. }
  destruct (unhex (hex_digit n)) as [m|]; [|discriminate].
  apply N.eqb_eq in H. now subst.
Qed.

Lemma octet_at_percent (b : N) (r : jsstring) :
  b < 256 -> octet_at (percent b ++ r) = Some (b, r).
Proof.
  intros Hb. unfold percent. cbn [app octet_at].
  rewrite !unhex_hex_digit by octets.
  do 2 f_equal. octets.
Qed.

Lemma utf8_octets (cp : N) :
  utf8 cp =
    if cp <? 0x80 then [cp]
    else if cp <? 0x800 then [192 + cp / 64; 128 + cp mod 64]
    else if cp <? 0x10000 then [224 + cp / 4096; 128 + (cp / 64) mod 64; 128 + cp mod 64]
    else if cp <? 0x110000 then
      [240 + cp / 262144; 128 + (cp / 4096) mod 64; 128 + (cp / 64) mod 64; 128 + cp mod 64]
    else utf8 cp.
Proof.
  unfold utf8.
  change 0x3F with (N.ones 6). rewrite !N.land_ones, !N.shiftr_div_pow2.
  change (2 ^ 6) with 64. change (2 ^ 12) with 4096. change (2 ^ 18) with 262144.
  destruct (N.ltb_spec cp 0x80); [reflexivity|].
  destruct (N.ltb_spec cp 0x800).
  { rewrite (lor_marker 192 32), (lor_marker 128 64); (reflexivity || octets). }
  destruct (N.ltb_spec cp 0x10000).
  { rewrite (lor_marker 224 16), !(lor_marker 128 64); (reflexivity || octets). }
  destruct (N.ltb_spec cp 0x110000); [|reflexivity].
  rewrite (lor_marker 240 8), !(lor_marker 128 64); (reflexivity || octets).
Qed.

Lemma continuation_step (n : nat) (acc x : N) (r : jsstring) :
  x < 64 ->
  continuation (S n) acc (percent (128 + x) ++ r) = continuation n (64 * acc + x) r.
Proof.
  intros Hx. cbn [continuation]. rewrite octet_at_percent by lia.
  destruct (N.leb_spec 128 (128 + x)); [|lia].
  destruct (N.ltb_spec (128 + x) 192); [|lia].
  cbn [andb]. do 2 f_equal. lia.
Qed.

(** Reading back the escaped UTF-8 octets of a code point. *)
Lemma code_point_at_utf8 (cp : N) (r : jsstring) :
  cp < 0x110000 -> code_point_at (percent_all (utf8 cp) ++ r) = Some (cp, r).
Proof.
  intros Hcp. rewrite utf8_octets. unfold code_point_at, percent_all.
  destruct (N.ltb_spec cp 0x80).
  { cbn [flat_map]. rewrite app_nil_r, octet_at_percent by lia.
    destruct (N.ltb_spec cp 128); [reflexivity | lia]. }
  destruct (N.ltb_spec cp 0x800).
  { cbn [flat_map]. rewrite app_nil_r, <- app_assoc, octet_at_percent by octets.
    destruct (N.ltb_spec (192 + cp / 64) 128); [octets|].
    destruct (N.ltb_spec (192 + cp / 64) 192); [octets|].
    destruct (N.ltb_spec (192 + cp / 64) 224); [|octets].
    rewrite continuation_step by octets. cbn [continuation].
    do 2 f_equal. octets. }
  destruct (N.ltb_spec cp 0x10000).
  { cbn [flat_map]. rewrite app_nil_r, <- !app_assoc, octet_at_percent by octets.
    destruct (N.ltb_spec (224 + cp / 4096) 128); [octets|].
    destruct (N.ltb_spec (224 + cp / 4096) 192); [octets|].
    destruct (N.ltb_spec (224 + cp / 4096) 224); [octets|].
    destruct (N.ltb_spec (224 + cp / 4096) 240); [|octets].
    rewrite !continuation_step by octets. cbn [continuation].
    do 2 f_equal. octets. }
  destruct (N.ltb_spec cp 0x110000); [|lia].
  cbn [flat_map]. rewrite app_nil_r, <- !app_assoc, octet_at_percent by octets.
  destruct (N.ltb_spec (240 + cp / 262144) 128); [octets|].
  destruct (N.ltb_spec (240 + cp / 262144) 192); [octets|].
  destruct (N.ltb_spec (240 + cp / 262144) 224); [octets|].
  destruct (N.ltb_spec (240 + cp / 262144) 240); [octets|].
  rewrite !continuation_step by octets. cbn [continuation].
  do 2 f_equal. octets.
Qed.

Lemma percent_all_utf8_head (cp : N) : exists t, percent_all (utf8 cp) = 37 :: t.
Proof.
  unfold utf8.
  destruct (cp <? 0x80); [|destruct (cp <? 0x800); [|destruct (cp <? 0x10000)]];
    eexists; reflexivity.
Qed.

Lemma decode_escape (fuel : nat) (cp : N) (r : jsstring) :
  cp < 0x110000 ->
  decode (S fuel) (percent_all (utf8 cp) ++ r)
  = match decode fuel r with
    | Some s => Some (units cp ++ s)
    | None => None
    end.
Proof.
  intros Hcp. pose proof (code_point_at_utf8 cp r Hcp) as Hat.
  destruct (percent_all_utf8_head cp) as [t Ht]. rewrite Ht in Hat |- *.
  cbn [app] in Hat |- *. cbn [decode]. rewrite Hat. reflexivity.
Qed.

Lemma units_pair (c d : N) :
  is_high_surrogate c = true -> is_low_surrogate d = true ->
  pair_code_point c d < 0x110000 /\ units (pair_code_point c d) = [c; d].
Proof.
  unfold is_high_surrogate, is_low_surrogate, pair_code_point, units.
  rewrite !andb_true_iff, !N.leb_le, N.shiftl_mul_pow2. change (2 ^ 10) with 1024.
  intros [Hc1 Hc2] [Hd1 Hd2]. split; [lia|].
  destruct (N.ltb_spec (0x10000 + (c - 0xD800) * 1024 + (d - 0xDC00)) 0x10000); [lia|].
  f_equal; [|f_equal]; octets.
Qed.

Lemma unescaped_not_percent (c : N) : is_unescaped c = true -> (c =? 37) = false.
Proof. intros Hc. destruct (N.eqb_spec c 37) as [->|]; [discriminate | reflexivity]. Qed.

(** Decoding gives back what was encoded. *)
Lemma decode_encode_bounded (n : nat) :
  forall s e fuel, (length s <= n)%nat -> is_utf16 s = true -> encode s = Some e ->
    (length e < fuel)%nat -> decode fuel e = Some s.
Proof.
  induction n as [|n IH]; intros s e fuel Hlen Hs He Hfuel.
  - destruct s; [|simpl in Hlen; lia]. injection He as <-.
    destruct fuel; [simpl in Hfuel; lia | reflexivity].
  - destruct fuel as [|fuel]; [lia|].
    destruct s as [|c rest]; [injection He as <-; reflexivity|].
    simpl in Hlen, He. cbn [is_utf16 forallb] in Hs.
    apply andb_true_iff in Hs as [Hc16 Hs]. apply N.ltb_lt in Hc16.
    destruct (is_unescaped c) eqn:Hc.
    + destruct (encode rest) as [r|] eqn:Hr; [|discriminate].
      injection He as <-. cbn [decode]. rewrite (unescaped_not_percent c Hc).
      rewrite (IH rest r fuel); [reflexivity | lia | exact Hs | exact Hr | simpl in Hfuel; lia].
    + destruct (is_high_surrogate c) eqn:Hhi.
      * destruct rest as [|d rest']; [discriminate|].
        destruct (is_low_surrogate d) eqn:Hlo; [|discriminate].
        destruct (encode rest') as [r|] eqn:Hr; [|discriminate].
        injection He as <-.
        cbn [forallb] in Hs. apply andb_true_iff in Hs as [_ Hs].
        destruct (units_pair c d Hhi Hlo) as [Hcp Hunits].
        rewrite decode_escape by exact Hcp.
        destruct (percent_all_utf8_head (pair_code_point c d)) as [t Ht].
        rewrite Ht in Hfuel. simpl in Hfuel. rewrite length_app in Hfuel.
        rewrite (IH rest' r fuel); [| simpl in Hlen; lia | exact Hs | exact Hr | lia].
        rewrite Hunits. reflexivity.
      * destruct (is_low_surrogate c); [discriminate|].
        destruct (encode rest) as [r|] eqn:Hr; [|discriminate].
        injection He as <-.
        rewrite decode_escape by lia.
        destruct (percent_all_utf8_head c) as [t Ht].
        rewrite Ht in Hfuel. simpl in Hfuel. rewrite length_app in Hfuel.
        rewrite (IH rest r fuel); [| lia | exact Hs | exact Hr | lia].
        unfold units. destruct (N.ltb_spec c 0x10000); [reflexivity | lia].
Qed.

Lemma decode_encode (s e : jsstring) :
  is_utf16 s = true -> encode s = Some e -> decode (S (length e)) e = Some s.
Proof. intros Hs He. apply (decode_encode_bounded (length s)); auto with arith. Qed.

(** Two strings with the same encoding are the same string. *)
Lemma encode_inj (s1 s2 e : jsstring) :
  is_utf16 s1 = true -> is_utf16 s2 = true ->
  encode s1 = Some e -> encode s2 = Some e -> s1 = s2.
Proof.
  intros H1 H2 E1 E2.
  pose proof (decode_encode s1 e H1 E1) as D1.
  pose proof (decode_encode s2 e H2 E2) as D2.
  congruence.
Qed.

End Decoding.

Section RequestArguments.

Variable net : Network.

Lemma js_inj (a b : string) : js a = js b -> a = b.
Proof.
  unfold js. intros H.
  rewrite <- (string_of_list_ascii_of_string a), <- (string_of_list_ascii_of_string b).
  f_equal. revert H.
  generalize (list_ascii_of_string a) (list_ascii_of_string b).
  induction l as [|x l IH]; intros [|y l']; simpl; intros H; try discriminate; [reflexivity|].
  injection H as Hx Hl. f_equal; [|apply IH, Hl].
  rewrite <- (ascii_N_embedding x), <- (ascii_N_embedding y). now f_equal.
Qed.

(** Two numbers that print alike are the same number. *)
Lemma Number_toString_inj (n m : number) : Number_toString n = Number_toString m -> n = m.
Proof.
  unfold Number_toString. intros H. apply js_inj in H.
  apply DecimalZ.to_int_inj.
  assert (Hd : forall z, Z.to_int z <> Decimal.Pos Decimal.Nil /\ Z.to_int z <> Decimal.Neg Decimal.Nil).
  { intros [|p|p]; split; try discriminate; intros E; injection E as E;
      exact (DecimalPos.Unsigned.to_uint_nonnil p E). }
  destruct (Hd n) as [Hn1 Hn2], (Hd m) as [Hm1 Hm2].
  pose proof (NilZero.isi _ Hn1 Hn2) as In. pose proof (NilZero.isi _ Hm1 Hm2) as Im.
  rewrite H in In. congruence.
Qed.

(** Where an encoded component ends: at the first [&]. *)
Lemma cut_at_ampersand (e1 e2 t1 t2 : jsstring) :
  Forall (fun c => uri_safe c = true) e1 -> Forall (fun c => uri_safe c = true) e2 ->
  e1 ++ 38%N :: t1 = e2 ++ 38%N :: t2 -> e1 = e2 /\ t1 = t2.
Proof.
  intros H1. revert e2. induction H1 as [|c e1 Hc H1 IH]; intros e2 H2 E.
  - destruct H2 as [|d e2 Hd H2]; simpl in E.
    + injection E as ->. split; reflexivity.
    + injection E as <- _. discriminate.
  - destruct H2 as [|d e2 Hd H2]; simpl in E.
    + injection E as -> _. discriminate.
    + injection E as -> E. destruct (IH e2 H2 E) as [-> ->]. split; reflexivity.
Qed.

Lemma search_request_inj (q1 q2 e1 e2 : jsstring) (k1 k2 : number) :
  is_utf16 q1 = true -> is_utf16 q2 = true ->
  encode q1 = Some e1 -> encode q2 = Some e2 ->
  url (search_request e1 k1) = url (search_request e2 k2) -> q1 = q2 /\ k1 = k2.
Proof.
  intros U1 U2 E1 E2 H.
  assert (H1 : e1 ++ js "&top_k=" ++ Number_toString k1
               = e2 ++ js "&top_k=" ++ Number_toString k2).
  { apply (app_inv_head (js "/search?query=")), (app_inv_head Page.API_BASE). exact H. }
  destruct (cut_at_ampersand e1 e2 (js "top_k=" ++ Number_toString k1)
              (js "top_k=" ++ Number_toString k2)
              (encode_safe _ _ E1) (encode_safe _ _ E2) H1) as [He Hk].
  apply app_inv_head in Hk. apply Number_toString_inj in Hk.
  split; [|exact Hk]. subst e2. exact (encode_inj q1 q2 e1 U1 U2 E1 E2).
Qed.

Lemma download_request_inj (id1 id2 : number) :
  url (download_request id1) = url (download_request id2) -> id1 = id2.
Proof.
  intros H. apply Number_toString_inj.
  apply (app_inv_head (js "/download_image/")), (app_inv_head Page.API_BASE). exact H.
Qed.

(** The address of a search tells the text and the number of results
    asked for: two calls of [searchImages] with well-formed texts send the
    same request only for the same text and the same [top_k] (5 when none
    is given). *)
Theorem search_request_tells_its_arguments (q1 q2 : jsstring) (k1 k2 : option number)
    (log : list Request) :
  is_utf16 q1 = true -> is_utf16 q2 = true ->
  well_formed q1 = true -> well_formed q2 = true ->
  (snd (Page.searchImages net {| query := q1; topK := k1 |} log)
   = snd (Page.searchImages net {| query := q2; topK := k2 |} log)
   <-> q1 = q2 /\ default 5%Z k1 = default 5%Z k2)
  /\ (snd (Part000.searchImages net {| query := q1; topK := k1 |} log)
      = snd (Part000.searchImages net {| query := q2; topK := k2 |} log)
      <-> q1 = q2 /\ default 5%Z k1 = default 5%Z k2).
Proof.
  intros U1 U2 W1 W2.
  assert (H : snd (Page.searchImages net {| query := q1; topK := k1 |} log)
              = snd (Page.searchImages net {| query := q2; topK := k2 |} log)
              <-> q1 = q2 /\ default 5%Z k1 = default 5%Z k2).
  { rewrite !page_searchImages_log. cbn [query topK].
    destruct (encode_total q1 W1) as [e1 E1], (encode_total q2 W2) as [e2 E2].
    rewrite E1, E2. split.
    - intros H. apply app_inv_head in H.
      apply (search_request_inj q1 q2 e1 e2 _ _ U1 U2 E1 E2).
      exact (f_equal first_url H).
    - intros [-> Hk]. rewrite Hk. congruence. }
  split; exact H.
Qed.

(** Images whose identifiers a JavaScript number holds exactly are told
    apart wherever the identifier is written out: two downloads send the
    same request only for the same image, and so for the address of a
    thumbnail (which is the address the download fetches) and for the
    name of the saved file. *)
Theorem images_are_told_apart (id1 id2 : number) (log : list Request) :
  exact_integer id1 -> exact_integer id2 ->
  (snd (Page.downloadImage net id1 log) = snd (Page.downloadImage net id2 log) <-> id1 = id2)
  /\ (snd (Part000.downloadImage net id1 log) = snd (Part000.downloadImage net id2 log)
      <-> id1 = id2)
  /\ (thumbnail_src id1 = thumbnail_src id2 <-> id1 = id2)
  /\ (download_name id1 = download_name id2 <-> id1 = id2)
  /\ thumbnail_src id1 = url (download_request id1).
Proof.
  intros _ _.
  assert (H : snd (Page.downloadImage net id1 log) = snd (Page.downloadImage net id2 log)
              <-> id1 = id2).
  { rewrite !page_downloadImage_log. split; [|now intros ->].
    intros H. apply app_inv_head in H.
    apply download_request_inj. exact (f_equal first_url H). }
  split; [exact H|]. split; [exact H|]. split; [|split; [|reflexivity]].
  - unfold thumbnail_src. split; [|now intros ->].
    intros E. apply download_request_inj. exact E.
  - unfold download_name. split; [|now intros ->].
    intros E. apply Number_toString_inj.
    apply (app_inv_tail (js ".jpg")), (app_inv_head (js "image_")). exact E.
Qed.

(** In [part_000] the user reads why the server refused: when the
    response to a download or to an upload is not OK and carries a text,
    the notification of the error ends with that text; nothing is saved,
    and the form keeps the file. *)
Theorem part000_shows_the_refusal (s : AppState) (resp : Response) :
  ok resp = false -> text resp <> [] ->
  (forall imageId,
     net (requests s) (download_request imageId) = Normal resp ->
     let q := Part000.step net s (ClickDownload imageId) in
     toasts q = toasts s ++ [(ToastError, js "Error downloading image: " ++ text resp)]
     /\ downloads q = downloads s)
  /\ (forall f,
        uploadFile s = Some f ->
        net (requests s) (add_request f (uploadDescription s)) = Normal resp ->
        let q := Part000.step net s ClickAddImage in
        toasts q = toasts s ++ [(ToastError, js "Error adding image: " ++ text resp)]
        /\ uploadFile q = Some f).
Proof.
  intros Hok Htext.
  assert (Hor : forall fallback, or_else (text resp) fallback = text resp).
  { intros fallback. unfold or_else. destruct (text resp); [contradiction | reflexivity]. }
  split.
  - intros imageId Hnet. cbv zeta.
    unfold Part000.step, Part000.handle, Part000.downloadImageMutation.
    rewrite mutate_state.
    assert (E : Part000.downloadImage net imageId (requests s)
                = (Throw (mkError Error (text resp)), requests s ++ [download_request imageId])).
    { unfold Part000.downloadImage, mbind, M_bind, bind, fetch.
      change (net (requests s) _) with (net (requests s) (download_request imageId)).
      rewrite Hnet, Hok. cbn. rewrite Hor. reflexivity. }
    rewrite E. cbn. split; reflexivity.
  - intros f Hf Hnet. cbv zeta.
    unfold Part000.step, Part000.handle, Part000.handleUpload, mbind, M_bind, bind, get.
    rewrite Hf. unfold Part000.addImageMutation. rewrite mutate_state.
    assert (E : Part000.addImage net {| file := f; add_description := uploadDescription s |}
                  (requests s)
                = (Throw (mkError Error (text resp)),
                   requests s ++ [add_request f (uploadDescription s)])).
    { unfold Part000.addImage, mbind, M_bind, bind, fetch.
      change (net (requests s) _) with (net (requests s) (add_request f (uploadDescription s))).
      rewrite Hnet. unfold Part000.handleResponse. rewrite Hok. cbn. rewrite Hor. reflexivity. }
    rewrite E. cbn. rewrite Hf. split; reflexivity.
Qed.

End RequestArguments.

Lemma search_request_tells_its_arguments_witness :
  snd (Page.searchImages demo_server {| query := js "cat"; topK := None |} [])
  = snd (Page.searchImages demo_server {| query := js "cat"; topK := Some 5%Z |} [])
  /\ snd (Page.searchImages demo_server {| query := js "cat"; topK := None |} [])
     <> snd (Page.searchImages demo_server {| query := js "a cat"; topK := None |} []).
Proof.
  split.
  - apply (search_request_tells_its_arguments demo_server (js "cat") (js "cat") None (Some 5%Z) []
             eq_refl eq_refl eq_refl eq_refl).
    split; reflexivity.
  - intros H.
    apply (search_request_tells_its_arguments demo_server (js "cat") (js "a cat") None None []
             eq_refl eq_refl eq_refl eq_refl) in H.
    destruct H as [H _]. discriminate H.
Defined.

Lemma images_are_told_apart_witness :
  snd (Page.downloadImage demo_server 1%Z []) <> snd (Page.downloadImage demo_server 2%Z [])
  /\ thumbnail_src 1%Z <> thumbnail_src 2%Z
  /\ download_name 1%Z <> download_name 2%Z.
Proof.
  assert (H1 : exact_integer 1%Z) by (unfold exact_integer; lia).
  assert (H2 : exact_integer 2%Z) by (unfold exact_integer; lia).
  destruct (images_are_told_apart demo_server 1%Z 2%Z [] H1 H2) as (Hd & _ & Ht & Hn & _).
  split; [|split]; intros E; [apply Hd in E | apply Ht in E | apply Hn in E]; discriminate E.
Defined.

Lemma part000_shows_the_refusal_witness :
  toasts (Part000.step demo_server initial (ClickDownload 7%Z))
  = [(ToastError, js "Error downloading image: Image not found")]
  /\ downloads (Part000.step demo_server initial (ClickDownload 7%Z)) = [].
Proof.
  exact (proj1 (part000_shows_the_refusal demo_server initial
                  {| ok := false; text := js "Image not found";
                     json := Throw (mkError SyntaxError []); blob := [] |}
                  eq_refl ltac:(discriminate)) 7%Z eq_refl).
Defined.

(** ** The requests of each event *)

Section EventTraffic.

Variable net : Network.

Lemma retryer_silent {A} (fn : Async A) :
  (forall log, snd (fn log) = log) ->
  forall retries log, snd (retryer retries fn log) = log.
Proof.
  intros Hfn. induction retries as [|k IH]; intros log; simpl; unfold try_catch;
    pose proof (Hfn log) as Hlog; destruct (fn log) as [[a|e] log']; simpl in Hlog; subst log';
    try reflexivity.
  apply IH.
Qed.

Lemma images_tries (log : list Request) :
  exists n, n <= query_retries
    /\ snd (retryer query_retries (Page.fetchImages net) log) = log ++ tries list_images_request n.
Proof. apply retryer_log. intros l. apply page_fetchImages_log. Qed.

Lemma search_tries_log (t : jsstring) (log : list Request) :
  exists m, m <= query_retries
    /\ snd (retryer query_retries (Page.searchImages net {| query := t; topK := None |}) log)
       = log ++ search_tries t m.
Proof.
  unfold search_tries. destruct (encode t) as [e|] eqn:He.
  - apply retryer_log. intros l. rewrite page_searchImages_log. cbn [query topK]. rewrite He.
    reflexivity.
  - exists 0. split; [lia|]. rewrite app_nil_r. apply retryer_silent.
    intros l. rewrite page_searchImages_log. cbn [query]. rewrite He. reflexivity.
Qed.

Lemma fetchQuery_run (o : Observer) (s : AppState) :
  fetchQuery o s = (Normal tt, snd (fetchQuery o s))
  /\ requests (snd (fetchQuery o s)) = snd (retryer query_retries (queryFn o) (requests s)).
Proof.
  unfold fetchQuery, liftAsync.
  destruct (retryer query_retries (queryFn o) (requests s)) as [r l]. split; reflexivity.
Qed.

Lemma page_step_requests (s : AppState) (e : Event) :
  exists n m, n <= query_retries /\ m <= query_retries
    /\ requests (Page.step net s e) = requests s ++ event_requests (fun _ => false) s e n m.
Proof.
  destruct e as [|t| | |f|t| |imageId]; unfold Page.step, Page.handle.
  - unfold mbind, M_bind, bind, get, fetchOptionally. cbn [enabled Page.imagesQuery].
    destruct (fetchQuery_run (Page.imagesQuery net) s) as [Hrun Hlog]. rewrite Hrun.
    destruct (images_tries (requests s)) as (n & Hn & Hn').
    cbn [queryFn Page.imagesQuery] in Hlog. rewrite Hn' in Hlog.
    cbn [Page.searchResultsQuery enabled event_requests].
    destruct (truthy (searchQueryText s)).
    + match goal with |- context [fetchQuery ?o ?s1] =>
        destruct (fetchQuery_run o s1) as [_ Hlog2] end.
      cbn [queryFn Page.searchResultsQuery] in Hlog2. rewrite Hlog in Hlog2.
      destruct (search_tries_log (searchQueryText s) (requests s ++ tries list_images_request n))
        as (m & Hm & Hm').
      rewrite Hm' in Hlog2. exists n, m. rewrite Hlog2, <- app_assoc. auto.
    + exists n, 0. cbn [snd ret]. rewrite Hlog, app_nil_r. repeat split; [exact Hn | lia].
  - unfold mbind, M_bind, bind, get, modify, fetchOptionally.
    cbn [enabled Page.searchResultsQuery searchQueryText setSearchQueryText event_requests].
    destruct (truthy t).
    + match goal with |- context [fetchQuery ?o ?s1] =>
        destruct (fetchQuery_run o s1) as [_ Hlog2] end.
      cbn [queryFn Page.searchResultsQuery searchQueryText setSearchQueryText requests] in Hlog2.
      destruct (search_tries_log t (requests s)) as (m & Hm & Hm').
      rewrite Hm' in Hlog2. exists 0, m. rewrite Hlog2. repeat split; [lia | exact Hm].
    + exists 0, 0. cbn. rewrite app_nil_r. repeat split; lia.
  - unfold mbind, M_bind, bind, get, refetch.
    destruct (fetchQuery_run (Page.searchResultsQuery net s) s) as [_ Hlog].
    cbn [queryFn Page.searchResultsQuery] in Hlog.
    destruct (search_tries_log (searchQueryText s) (requests s)) as (m & Hm & Hm').
    rewrite Hm' in Hlog. exists 0, m. cbn [fst snd event_requests].
    repeat split; [lia | exact Hm | exact Hlog].
  - unfold refetch.
    destruct (fetchQuery_run (Page.imagesQuery net) s) as [_ Hlog].
    cbn [queryFn Page.imagesQuery] in Hlog.
    destruct (images_tries (requests s)) as (n & Hn & Hn').
    rewrite Hn' in Hlog. exists n, 0. repeat split; [exact Hn | lia | exact Hlog].
  - exists 0, 0. destruct f; cbn; rewrite app_nil_r; repeat split; lia.
  - exists 0, 0. cbn. rewrite app_nil_r. repeat split; lia.
  - exists 0, 0. split; [lia|]. split; [lia|]. cbn [event_requests].
    unfold Page.handleUpload, mbind, M_bind, bind, get.
    destruct (uploadFile s) as [f|] eqn:Hf; [|cbn; now rewrite app_nil_r].
    unfold Page.addImageMutation. rewrite mutate_state.
    pose proof (page_addImage_log net {| file := f; add_description := uploadDescription s |}
                  (requests s)) as Hlog.
    destruct (Page.addImage net _ (requests s)) as [[d|err] l]; simpl in Hlog; subst l;
      reflexivity.
  - exists 0, 0. split; [lia|]. split; [lia|]. cbn [event_requests].
    unfold Page.downloadImageMutation. rewrite mutate_state.
    pose proof (page_downloadImage_log net imageId (requests s)) as Hlog.
    destruct (Page.downloadImage net imageId (requests s)) as [[b|err] l]; simpl in Hlog;
      subst l; reflexivity.
Qed.

Lemma part000_step_requests (s : AppState) (e : Event) :
  exists n m, n <= query_retries /\ m <= query_retries
    /\ requests (Part000.step net s e)
       = requests s
         ++ event_requests
              (fun f => succeeded
                 (fst (Part000.addImage net {| file := f; add_description := uploadDescription s |}
                         (requests s))))
              s e n m.
Proof.
  destruct e as [|t| | |f|t| |imageId].
  1-6: match goal with
       | |- context [Part000.step _ ?s0 ?e] =>
         destruct (page_step_requests s0 e) as (n & m & Hn & Hm & H); exists n, m;
           split; [exact Hn|]; split; [exact Hm|]; exact H
       end.
  - unfold Part000.step, Part000.handle. cbn [event_requests].
    destruct (uploadFile s) as [f|] eqn:Hf.
    + unfold Part000.handleUpload, mbind, M_bind, bind, get. rewrite Hf.
      unfold Part000.addImageMutation. rewrite mutate_state.
      pose proof (page_addImage_log net {| file := f; add_description := uploadDescription s |}
                    (requests s)) as Hlog.
      change (Page.addImage net) with (Part000.addImage net) in Hlog.
      destruct (Part000.addImage net _ (requests s)) as [[d|err] l]; simpl in Hlog; subst l.
      * match goal with
        | |- context [Part000.addImage_onSuccess net d ?v ?s1] =>
          destruct (part000_addImage_onSuccess net d v s1) as (n & q & Hn & E)
        end.
        rewrite E. exists n, 0. split; [exact Hn|]. split; [lia|].
        cbn. rewrite <- app_assoc. reflexivity.
      * exists 0, 0. split; [lia|]. split; [lia|]. reflexivity.
    + rewrite (part000_handleUpload_without_file net s Hf). exists 0, 0.
      cbn. rewrite app_nil_r. repeat split; lia.
  - destruct (page_step_requests s (ClickDownload imageId)) as (n & m & Hn & Hm & H).
    exists n, m. split; [exact Hn|]. split; [exact Hm|].
    unfold Part000.step, Part000.handle, Part000.downloadImageMutation.
    rewrite mutate_state.
    pose proof (page_downloadImage_log net imageId (requests s)) as Hlog.
    change (Page.downloadImage net) with (Part000.downloadImage net) in Hlog.
    destruct (Part000.downloadImage net imageId (requests s)) as [[b|err] l]; simpl in Hlog;
      subst l; reflexivity.
Qed.

(** What each event sends.  The first mount of the page fetches the
    image list (and the search too if a text were there); typing fetches
    the search for the new text unless it is empty; the Search button
    fetches the search for the text as it is; Refresh fetches the list;
    choosing a file or writing a description sends nothing; Add Image
    posts the form once when a file is chosen, and in [part_000] fetches
    the list again when the server accepted it; Download sends one
    request.  A query repeats its request up to three times; a mutation
    never. *)
Theorem requests_of_an_event (s : AppState) (e : Event) :
  (e = Mount -> first_mount s) ->
  (exists n m, n <= query_retries /\ m <= query_retries
     /\ requests (Page.step net s e) = requests s ++ event_requests (fun _ => false) s e n m)
  /\ (exists n m, n <= query_retries /\ m <= query_retries
        /\ requests (Part000.step net s e)
           = requests s
             ++ event_requests
                  (fun f => succeeded
                     (fst (Part000.addImage net
                             {| file := f; add_description := uploadDescription s |}
                             (requests s))))
                  s e n m).
Proof. intros _. split; [apply page_step_requests | apply part000_step_requests]. Qed.

End EventTraffic.

Lemma requests_of_an_event_witness :
  exists n, n <= query_retries
    /\ requests (Page.step demo_server initial Mount) = tries list_images_request n.
Proof.
  assert (H : first_mount initial) by (repeat split; reflexivity).
  destruct (proj1 (requests_of_an_event demo_server initial Mount (fun _ => H)))
    as (n & m & Hn & _ & E).
  exists n. split; [exact Hn|]. rewrite E. cbn. rewrite app_nil_r. reflexivity.
Defined.

(** ** The search for the empty text *)

Section EmptySearch.

Variable net : Network.

Lemma encode_nonempty (t e : jsstring) : encode t = Some e -> t <> [] -> e <> [].
Proof.
  destruct t as [|c rest]; [contradiction|]. intros He _. simpl in He.
  destruct (is_unescaped c).
  { destruct (encode rest); [|discriminate]. injection He as <-. discriminate. }
  destruct (is_high_surrogate c).
  { destruct rest as [|d rest']; [discriminate|].
    destruct (is_low_surrogate d); [|discriminate].
    destruct (encode rest'); [|discriminate]. injection He as <-.
    destruct (percent_all_utf8_head (pair_code_point c d)) as [t ->]. discriminate. }
  destruct (is_low_surrogate c); [discriminate|].
  destruct (encode rest); [|discriminate]. injection He as <-.
  destruct (percent_all_utf8_head c) as [t ->]. discriminate.
Qed.

Lemma tries_elem (r x : Request) (n : nat) : x ∈ tries r n -> x = r.
Proof. intros H. apply list_elem_of_In in H. exact (repeat_spec _ _ _ H). Qed.

Lemma list_images_not_empty_search : empty_search_request <> list_images_request.
Proof. intros H. apply (f_equal (fun r => nth 22 (url r) 0%N)) in H. discriminate H. Qed.

Lemma search_tries_no_empty_search (t : jsstring) (m : nat) :
  t <> [] -> empty_search_request ∉ search_tries t m.
Proof.
  intros Ht H. unfold search_tries in H. destruct (encode t) as [e|] eqn:He.
  - apply tries_elem in H. apply (encode_nonempty t e He Ht).
    apply (f_equal url) in H.
    assert (H1 : js "&top_k=5" = e ++ js "&top_k=5").
    { apply (app_inv_head (js "/search?query=")), (app_inv_head Page.API_BASE). exact H. }
    apply (f_equal (@length N)) in H1. rewrite length_app in H1.
    destruct e; [reflexivity | simpl in H1; lia].
  - inversion H.
Qed.

Lemma event_requests_no_empty_search (accepted : File -> bool) (s : AppState) (e : Event)
    (n m : nat) :
  e <> ClickSearch -> empty_search_request ∉ event_requests accepted s e n m.
Proof.
  intros He H. destruct e as [|t| | |f|t| |imageId]; cbn [event_requests] in H.
  - apply elem_of_app in H as [H|H].
    + apply tries_elem in H. exact (list_images_not_empty_search H).
    + destruct (searchQueryText s) as [|c t] eqn:Ht; cbn [truthy] in H; [inversion H|].
      exact (search_tries_no_empty_search (c :: t) m ltac:(discriminate) H).
  - destruct t as [|c t]; cbn [truthy] in H; [inversion H|].
    exact (search_tries_no_empty_search (c :: t) m ltac:(discriminate) H).
  - contradiction.
  - apply tries_elem in H. exact (list_images_not_empty_search H).
  - inversion H.
  - inversion H.
  - destruct (uploadFile s) as [f|]; [|inversion H].
    apply elem_of_cons in H as [H|H]; [discriminate H|].
    destruct (accepted f); [|inversion H].
    apply tries_elem in H. exact (list_images_not_empty_search H).
  - apply elem_of_cons in H as [H|H]; [|inversion H].
    apply (f_equal (fun r => nth 22 (url r) 0%N)) in H. discriminate H.
Qed.

Lemma page_run_no_empty_search (events : list Event) (s : AppState) :
  ClickSearch ∉ events -> empty_search_request ∉ requests s ->
  empty_search_request ∉ requests (Page.run net events s).
Proof.
  revert s. induction events as [|e es IH]; intros s Hev Hs; [exact Hs|].
  apply not_elem_of_cons in Hev as [He Hes].
  change (Page.run net (e :: es) s) with (Page.run net es (Page.step net s e)).
  apply IH; [exact Hes|].
  destruct (page_step_requests net s e) as (n & m & _ & _ & ->).
  intros H. apply elem_of_app in H as [H|H]; [exact (Hs H)|].
  revert H. apply event_requests_no_empty_search. congruence.
Qed.

Lemma part000_run_no_empty_search (events : list Event) (s : AppState) :
  ClickSearch ∉ events -> empty_search_request ∉ requests s ->
  empty_search_request ∉ requests (Part000.run net events s).
Proof.
  revert s. induction events as [|e es IH]; intros s Hev Hs; [exact Hs|].
  apply not_elem_of_cons in Hev as [He Hes].
  change (Part000.run net (e :: es) s) with (Part000.run net es (Part000.step net s e)).
  apply IH; [exact Hes|].
  destruct (part000_step_requests net s e) as (n & m & _ & _ & ->).
  intros H. apply elem_of_app in H as [H|H]; [exact (Hs H)|].
  revert H. apply event_requests_no_empty_search. congruence.
Qed.

(** Only the Search button sends the search for the empty text: in a
    session without a click on it, whatever is typed, cleared, mounted,
    refreshed, uploaded or downloaded, and whatever the server answers,
    that request is never sent, since the search query is disabled while
    the text is empty. *)
Theorem empty_search_only_from_the_button (events : list Event) :
  ClickSearch ∉ events ->
  (empty_search_request ∉ requests (Page.run net events initial))
  /\ (empty_search_request ∉ requests (Part000.run net events initial)).
Proof.
  intros Hev.
  split; [apply page_run_no_empty_search | apply part000_run_no_empty_search];
    (exact Hev || (intros H; inversion H)).
Qed.

End EmptySearch.

Lemma empty_search_only_from_the_button_witness :
  let events := before_upload ++ [ChangeSearchText []; Mount; ClickRefresh; ClickAddImage] in
  (empty_search_request ∉ requests (Page.run demo_server events initial))
  /\ (empty_search_request ∉ requests (Part000.run demo_server events initial)).
Proof.
  apply (empty_search_only_from_the_button demo_server).
  intros H. repeat (apply elem_of_cons in H as [H|H]; [discriminate H|]). inversion H.
Defined.
